(** * Private bridge (private_bridge.py): command parser, message codec,
      transport client and session driver

    A shallow embedding of [private_bridge.py] and the properties of it that
    the specification states.

    Conventions of the embedding.
    - Python [str] values are [string]s over 8-bit characters, read as the
      code points 0..255 (Latin-1).  [isspace], [lower] and the regular
      expression classes are Python's, restricted to that range.
    - Python [float]s that the program does arithmetic on (the backoff, the
      sampling clock) are the rationals they denote; every constant of the
      source (0.5, 2.0, 5.0, 125) is a dyadic rational, and the model
      computes with them exactly.
    - A [dict] is an association list in insertion order, which is the order
      [json.dumps] writes the keys in. *)

From Stdlib Require Import List String Ascii Bool Arith ZArith NArith QArith
  Qminmax DecimalString DecimalPos DecimalZ Lia Lqa.
Import ListNotations.
Open Scope string_scope.

(* ------------------------------------------------------------------ *)
(** ** Python string primitives *)

Module PyStr.

(** [str.isspace] for one character, on code points below 256:
    TAB..CR, FS..US, SPACE, NEL and NBSP.  The class [\s] of [re] on a
    [str] pattern is the same set. *)
Definition isspace (c : ascii) : bool :=
  let n := N_of_ascii c in
  ((9 <=? n) && (n <=? 13) || (28 <=? n) && (n <=? 32)
   || (n =? 133) || (n =? 160))%N.

(** [str.lower] for one character: A..Z and the Latin-1 capitals
    (0xC0..0xDE without the multiplication sign 0xD7) move up by 32. *)
Definition lower_char (c : ascii) : ascii :=
  let n := N_of_ascii c in
  if ((65 <=? n) && (n <=? 90)
      || (192 <=? n) && (n <=? 222) && negb (n =? 215))%N
  then ascii_of_N (n + 32) else c.

Fixpoint lower (s : string) : string :=
  match s with
  | EmptyString => EmptyString
  | String c r => String (lower_char c) (lower r)
  end.

Definition is_empty (s : string) : bool :=
  match s with EmptyString => true | String _ _ => false end.

Fixpoint lstrip (s : string) : string :=
  match s with
  | EmptyString => EmptyString
  | String c r => if isspace c then lstrip r else s
  end.

Fixpoint rstrip (s : string) : string :=
  match s with
  | EmptyString => EmptyString
  | String c r =>
      let r' := rstrip r in
      if is_empty r' && isspace c then EmptyString else String c r'
  end.

(** [s.strip()] *)
Definition strip (s : string) : string := rstrip (lstrip s).

(** [s[1:]] *)
Definition slice_from_1 (s : string) : string :=
  match s with EmptyString => EmptyString | String _ r => r end.

(** [s.split()]: the maximal runs of non-whitespace characters, in order;
    no empty token is produced. *)
Fixpoint split (s : string) : list string :=
  match s with
  | EmptyString => []
  | String c r =>
      if isspace c then split r
      else match r with
           | EmptyString => [String c EmptyString]
           | String c' _ =>
               if isspace c' then String c EmptyString :: split r
               else match split r with
                    | t :: ts => String c t :: ts
                    | [] => [String c EmptyString]
                    end
           end
  end.

(** [sep.join(parts)] *)
Fixpoint join (sep : string) (parts : list string) : string :=
  match parts with
  | [] => EmptyString
  | [p] => p
  | p :: ps => p ++ sep ++ join sep ps
  end.

(** Writes a text that contains quotation marks with apostrophes in
    their place: [dq "{'v':1}"] is the text [{"v":1}] with two quotation
    marks in it. *)
Fixpoint dq (s : string) : string :=
  match s with
  | EmptyString => EmptyString
  | String c r =>
      String (if Ascii.eqb c "039"%char then "034"%char else c) (dq r)
  end.

(** [sub in s] *)
Fixpoint prefix_of (p s : string) : bool :=
  match p, s with
  | EmptyString, _ => true
  | String a p', String b s' => Ascii.eqb a b && prefix_of p' s'
  | String _ _, EmptyString => false
  end.

Fixpoint contains (sub s : string) : bool :=
  prefix_of sub s
  || match s with
     | EmptyString => false
     | String _ r => contains sub r
     end.

End PyStr.

(* ------------------------------------------------------------------ *)
(** ** The fragment of [re] that COMMAND_PATTERN uses *)

Module Re.

Inductive regex : Type :=
| Eps                        (* the empty pattern *)
| Lit (c : ascii)            (* a literal character *)
| Space                      (* \s *)
| Bol                        (* ^ *)
| Eol                        (* $ *)
| Seq (r1 r2 : regex)
| Alt (r1 r2 : regex).

(** A literal word, character by character. *)
Fixpoint word (w : string) : regex :=
  match w with
  | EmptyString => Eps
  | String c r => Seq (Lit c) (word r)
  end.

(** Under IGNORECASE a literal matches a character with the same
    lower-case form. *)
Definition lit_matches (ignorecase : bool) (l c : ascii) : bool :=
  if ignorecase
  then Ascii.eqb (PyStr.lower_char l) (PyStr.lower_char c)
  else Ascii.eqb l c.

(** Without MULTILINE, [$] matches at the end of the string and just
    before a newline that ends the string. *)
Definition at_eol (rest : string) : bool :=
  match rest with
  | EmptyString => true
  | String c EmptyString => Ascii.eqb c "010"%char
  | _ => false
  end.

(** Backtracking matcher in continuation-passing style: [pos] is the
    number of characters consumed so far, [rest] the text still to read,
    [k] what has to match afterwards. *)
Fixpoint exec (ic : bool) (r : regex) (pos : nat) (rest : string)
         (k : nat -> string -> bool) : bool :=
  match r with
  | Eps => k pos rest
  | Lit l =>
      match rest with
      | String c rest' => lit_matches ic l c && k (S pos) rest'
      | EmptyString => false
      end
  | Space =>
      match rest with
      | String c rest' => PyStr.isspace c && k (S pos) rest'
      | EmptyString => false
      end
  | Bol => Nat.eqb pos 0 && k pos rest
  | Eol => at_eol rest && k pos rest
  | Seq r1 r2 => exec ic r1 pos rest (fun p s => exec ic r2 p s k)
  | Alt r1 r2 => exec ic r1 pos rest k || exec ic r2 pos rest k
  end.

(** [pattern.match(s)], as a truth value: a match anchored at the start
    of [s]. *)
Definition re_match (ic : bool) (r : regex) (s : string) : bool :=
  exec ic r 0 s (fun _ _ => true).

End Re.

(* ------------------------------------------------------------------ *)
(** ** Configuration *)

Definition STATE_INTERVAL_MS : Q := 125.
Definition PROTOCOL_VERSION : Z := 1.

(** [re.compile(r"^/(come|follow|mine|hello)(?:\s|$)", re.IGNORECASE)] *)
Definition COMMAND_REGEX : Re.regex :=
  Re.Seq Re.Bol
    (Re.Seq (Re.Lit "/")
       (Re.Seq
          (Re.Alt (Re.word "come")
             (Re.Alt (Re.word "follow")
                (Re.Alt (Re.word "mine") (Re.word "hello"))))
          (Re.Alt Re.Space Re.Eol))).

Definition COMMAND_PATTERN_match (s : string) : bool :=
  Re.re_match true COMMAND_REGEX s.

(* ------------------------------------------------------------------ *)
(** ** Command parser *)

(** The dictionary [{"name": name, "args": args}] that
    [parse_private_command] returns. *)
Record Command : Type := mkCommand { name : string; args : list string }.

Definition parse_private_command (msg : string) : option Command :=
  if PyStr.is_empty msg then None
  else if negb (COMMAND_PATTERN_match (PyStr.strip msg)) then None
  else
    let parts := PyStr.split (PyStr.slice_from_1 (PyStr.strip msg)) in
    match parts with
    | [] => None
    | p0 :: _ =>
        Some {| name := PyStr.lower p0;
                args := if (1 <? List.length parts)%nat then tl parts else [] |}
    end.

(* ------------------------------------------------------------------ *)
(** ** JSON values and dictionaries *)

(** The Python values that travel through [json.dumps] and [json.loads]:
    [None], booleans, integers, floats, strings, lists and dictionaries. *)
#[local] Unset Elimination Schemes.
Inductive json : Type :=
| JNull
| JBool (b : bool)
| JInt (n : Z)
| JFloat (x : Q)
| JStr (s : string)
| JArr (items : list json)
| JObj (fields : list (string * json)).
#[local] Set Elimination Schemes.

Definition dict : Type := list (string * json).

Module Dict.

(** [d.get(key)], with [None] for a missing key. *)
Fixpoint get (d : dict) (key : string) : option json :=
  match d with
  | [] => None
  | (k, v) :: rest => if String.eqb k key then Some v else get rest key
  end.

(** [d.get(key, default)] *)
Definition get_default (d : dict) (key : string) (default : json) : json :=
  match get d key with Some v => v | None => default end.

(** [key in d] *)
Definition mem (d : dict) (key : string) : bool :=
  match get d key with Some _ => true | None => false end.

(** [d[key] = v]: an existing key keeps its place, a new one goes last. *)
Fixpoint set (d : dict) (key : string) (v : json) : dict :=
  match d with
  | [] => [(key, v)]
  | (k, w) :: rest =>
      if String.eqb k key then (k, v) :: rest else (k, w) :: set rest key v
  end.

End Dict.

Section Serialise.

(** [repr] of a float, which [json.dumps] writes for a number; it belongs
    to the interpreter and not to the program. *)
Variable float_repr : Q -> string.

Definition hex_digit (n : N) : ascii :=
  (if n <? 10 then ascii_of_N (48 + n) else ascii_of_N (87 + n))%N.

(** One character of a string literal under [ensure_ascii=True]:
    the quotation mark (34) and the backslash (92) get a backslash, the
    usual control characters their letter, and everything else outside
    SPACE..~ the form \u00XX. *)
Definition backslash : ascii := "092"%char.
Definition dquote : ascii := "034"%char.

Definition escape_char (c : ascii) : string :=
  let n := N_of_ascii c in
  let esc (x : ascii) := String backslash (String x EmptyString) in
  if (n =? 34)%N then esc dquote
  else if (n =? 92)%N then esc backslash
  else if (n =? 10)%N then esc "n"%char
  else if (n =? 13)%N then esc "r"%char
  else if (n =? 9)%N then esc "t"%char
  else if (n =? 8)%N then esc "b"%char
  else if (n =? 12)%N then esc "f"%char
  else if ((32 <=? n) && (n <=? 126))%N then String c EmptyString
  else String backslash
         ("u00" ++ String (hex_digit (n / 16))
                     (String (hex_digit (n mod 16)) EmptyString)).

Fixpoint escape (s : string) : string :=
  match s with
  | EmptyString => EmptyString
  | String c r => escape_char c ++ escape r
  end.

Definition quote (s : string) : string :=
  String dquote (escape s ++ String dquote EmptyString).

Definition int_repr (n : Z) : string := NilZero.string_of_int (Z.to_int n).

(** [json.dumps(v, separators=(",", ":"))] *)
Fixpoint json_dumps (v : json) : string :=
  match v with
  | JNull => "null"
  | JBool true => "true"
  | JBool false => "false"
  | JInt n => int_repr n
  | JFloat x => float_repr x
  | JStr s => quote s
  | JArr items =>
      "[" ++ (fix elems (l : list json) : string :=
                match l with
                | [] => ""
                | [x] => json_dumps x
                | x :: rest => json_dumps x ++ "," ++ elems rest
                end) items ++ "]"
  | JObj fields =>
      "{" ++ (fix members (l : list (string * json)) : string :=
                match l with
                | [] => ""
                | [(k, x)] => quote k ++ ":" ++ json_dumps x
                | (k, x) :: rest =>
                    quote k ++ ":" ++ json_dumps x ++ "," ++ members rest
                end) fields ++ "}"
  end.

End Serialise.

(* ------------------------------------------------------------------ *)
(** ** Host accessors and the state payload *)

(** Outcome of a call into the Minescript API: it returns or it raises. *)
Inductive call (A : Type) : Type :=
| Returns (a : A)
| Throws.
Arguments Returns {A} a.
Arguments Throws {A}.

Record EntityData : Type := { entity_position : Q * Q * Q }.
Record TargetedBlock : Type := { block_position : Z * Z * Z }.

(** What the three accessors of [minescript] answer at one moment. *)
Record Minescript : Type := {
  player : call (option EntityData);
  player_orientation : call (Q * Q);
  player_get_targeted_block : call (option TargetedBlock)
}.

(** The dictionary with the keys x, y, z, yaw, pitch. *)
Record PlayerState : Type :=
  { st_x : Q; st_y : Q; st_z : Q; st_yaw : Q; st_pitch : Q }.

(** The dictionary with the integer keys x, y, z. *)
Record BlockPos : Type := { bp_x : Z; bp_y : Z; bp_z : Z }.

Definition get_player_state (ms : Minescript) : option PlayerState :=
  match player ms with
  | Throws => None
  | Returns None => None
  | Returns (Some me) =>
      let '(px, py, pz) := entity_position me in
      match player_orientation ms with
      | Throws => None
      | Returns (yaw, pitch) =>
          Some {| st_x := px; st_y := py; st_z := pz;
                  st_yaw := yaw; st_pitch := pitch |}
      end
  end.

Definition get_crosshair_block (ms : Minescript) : option BlockPos :=
  match player_get_targeted_block ms with
  | Throws => None
  | Returns None => None
  | Returns (Some info) =>
      let '(bx, by_, bz) := block_position info in
      Some {| bp_x := bx; bp_y := by_; bp_z := bz |}
  end.

Definition looking_json (b : BlockPos) : json :=
  JObj [("x", JInt (bp_x b)); ("y", JInt (bp_y b)); ("z", JInt (bp_z b))].

Definition build_state_payload (ms : Minescript) : option dict :=
  match get_player_state ms with
  | None => None
  | Some st =>
      let looking := get_crosshair_block ms in
      let payload : dict :=
        [("type", JStr "state");
         ("v", JInt PROTOCOL_VERSION);
         ("position", JObj [("x", JFloat (st_x st)); ("y", JFloat (st_y st));
                            ("z", JFloat (st_z st))]);
         ("rotation", JObj [("yaw", JFloat (st_yaw st));
                            ("pitch", JFloat (st_pitch st))])] in
      match looking with
      | Some b => Some (Dict.set payload "lookingAt" (looking_json b))
      | None => Some payload
      end
  end.

(** How a receiver of a State message reads the target block: the three
    integers under [lookingAt], when the field is there. *)
Definition decode_lookingAt (message : dict) : option (Z * Z * Z) :=
  match Dict.get message "lookingAt" with
  | Some (JObj o) =>
      match Dict.get o "x", Dict.get o "y", Dict.get o "z" with
      | Some (JInt bx), Some (JInt by_), Some (JInt bz) => Some (bx, by_, bz)
      | _, _, _ => None
      end
  | _ => None
  end.

(* ------------------------------------------------------------------ *)
(** ** The send queue *)

(** An operation that may raise. *)
Inductive result (A : Type) : Type :=
| Ok (a : A)
| Raise (e : string).
Arguments Ok {A} a.
Arguments Raise {A} e.

(** [queue.Queue]: [maxsize] 0 means unbounded. *)
Record Queue : Type := { maxsize : nat; items : list dict }.

Definition Queue_new : Queue := {| maxsize := 0; items := [] |}.

Definition put_nowait (q : Queue) (item : dict) : result Queue :=
  if ((0 <? maxsize q) && (maxsize q <=? List.length (items q)))%nat
  then Raise "Full"
  else Ok {| maxsize := maxsize q; items := (items q ++ [item])%list |}.

(** [get(timeout=0.25)]: the oldest item, or [None] for [Empty]. *)
Definition get (q : Queue) : option (dict * Queue) :=
  match items q with
  | [] => None
  | item :: rest => Some (item, {| maxsize := maxsize q; items := rest |})
  end.

(** The sentinel that [stop] enqueues. *)
Definition STOP_SENTINEL : dict := [("_type", JStr "STOP")].

(** [v == text] for the result of a [dict.get]. *)
Definition is_str (v : option json) (text : string) : bool :=
  match v with
  | Some (JStr s) => String.eqb s text
  | _ => false
  end.

(* ------------------------------------------------------------------ *)
(** ** Transport client *)

(** Whether an awaited network operation ([websockets.connect],
    [ws.send]) completes or raises, and with which message. *)
Inductive io : Type :=
| Succeeds
| Fails (e : string).

(** Program points of [_async_main], one per access to the network or to
    a field shared with other threads. *)
Inductive pc : Type :=
| LoopHead                 (* while not self._stop_evt.is_set() *)
| Connect                  (* async with websockets.connect(...) *)
| Hello                    (* connected: build and send the hello *)
| SenderHead               (* inner while not self._stop_evt.is_set() *)
| Get                      (* self.tx_queue.get(timeout=0.25) *)
| Send (item : dict)       (* await ws.send(json.dumps(item)) *)
| Close                    (* recv_task.cancel(); leave the async with *)
| Except (e : string)      (* except Exception as e *)
| After                    (* self._connected = False; stop check *)
| Sleep                    (* await asyncio.sleep(backoff) *)
| Exited.

(** What the lifecycle thread has done, latest first: a connection was
    opened, or it slept for a delay before reconnecting. *)
Inductive event : Type :=
| Opened
| Slept (delay : Q).

(** The lifecycle thread: where it is, its local [backoff], and a record
    of what it did.  [wire] holds the frames written on each connection,
    latest connection first, frames in the order written. *)
Record Lifecycle : Type := {
  at_pc : pc;
  backoff : Q;
  recv_task : bool;
  wire : list (list string);
  history : list event;
  lc_logged : list string;
  lc_echoed : list string
}.

Record WSClient : Type := {
  url : string;
  secret : string;
  tx_queue : Queue;
  _thread : option Lifecycle;
  _stop_evt : bool;
  _connected : bool
}.

Definition WSClient_init (url secret : string) : WSClient :=
  {| url := url; secret := secret; tx_queue := Queue_new;
     _thread := None; _stop_evt := false; _connected := false |}.

Definition with_tx_queue (q : Queue) (c : WSClient) : WSClient :=
  {| url := url c; secret := secret c; tx_queue := q;
     _thread := _thread c; _stop_evt := _stop_evt c;
     _connected := _connected c |}.

Definition with_thread (t : option Lifecycle) (c : WSClient) : WSClient :=
  {| url := url c; secret := secret c; tx_queue := tx_queue c;
     _thread := t; _stop_evt := _stop_evt c; _connected := _connected c |}.

Definition with_stop_evt (b : bool) (c : WSClient) : WSClient :=
  {| url := url c; secret := secret c; tx_queue := tx_queue c;
     _thread := _thread c; _stop_evt := b; _connected := _connected c |}.

Definition with_connected (b : bool) (c : WSClient) : WSClient :=
  {| url := url c; secret := secret c; tx_queue := tx_queue c;
     _thread := _thread c; _stop_evt := _stop_evt c; _connected := b |}.

Definition goto (p : pc) (l : Lifecycle) : Lifecycle :=
  {| at_pc := p; backoff := backoff l; recv_task := recv_task l;
     wire := wire l; history := history l;
     lc_logged := lc_logged l; lc_echoed := lc_echoed l |}.

(** A frame is written on the current connection. *)
Definition transmit (frame : string) (l : Lifecycle) : Lifecycle :=
  {| at_pc := at_pc l; backoff := backoff l; recv_task := recv_task l;
     wire := match wire l with
             | [] => [[frame]]
             | conn :: older => (conn ++ [frame])%list :: older
             end;
     history := history l;
     lc_logged := lc_logged l; lc_echoed := lc_echoed l |}.

Definition lc_log (line : string) (l : Lifecycle) : Lifecycle :=
  {| at_pc := at_pc l; backoff := backoff l; recv_task := recv_task l;
     wire := wire l; history := history l;
     lc_logged := (lc_logged l ++ [line])%list; lc_echoed := lc_echoed l |}.

Definition lc_echo (lines : list string) (l : Lifecycle) : Lifecycle :=
  {| at_pc := at_pc l; backoff := backoff l; recv_task := recv_task l;
     wire := wire l; history := history l;
     lc_logged := lc_logged l; lc_echoed := (lc_echoed l ++ lines)%list |}.

Definition with_recv_task (b : bool) (l : Lifecycle) : Lifecycle :=
  {| at_pc := at_pc l; backoff := backoff l; recv_task := b;
     wire := wire l; history := history l;
     lc_logged := lc_logged l; lc_echoed := lc_echoed l |}.

(** [_async_main] on entry: [backoff = 0.5], nothing done yet. *)
Definition Lifecycle_start : Lifecycle :=
  {| at_pc := LoopHead; backoff := 0.5; recv_task := false;
     wire := []; history := []; lc_logged := []; lc_echoed := [] |}.

(** The hello dictionary of [_async_main]. *)
Definition hello_message (secret : string) : dict :=
  let hello := [("type", JStr "hello"); ("v", JInt PROTOCOL_VERSION)] in
  if negb (PyStr.is_empty secret)
  then Dict.set hello "secret" (JStr secret)
  else hello.

(** What another thread can write to the client object while the
    lifecycle thread runs: [put_nowait] on the queue ([send], [stop]), a
    [get] by another consumer, the stop event ([stop] sets it, [start]
    clears it), the liveness flag and the thread handle.  [url] and
    [secret] are written by [__init__] only. *)
Inductive interference : Type :=
| Put (item : dict)
| Take
| SetStop (b : bool)
| SetConnected (b : bool)
| SetThread (t : option Lifecycle).

Definition interfere (w : interference) (c : WSClient) : WSClient :=
  match w with
  | Put item =>
      match put_nowait (tx_queue c) item with
      | Ok q => with_tx_queue q c
      | Raise _ => c
      end
  | Take =>
      match get (tx_queue c) with
      | Some (_, q) => with_tx_queue q c
      | None => c
      end
  | SetStop b => with_stop_evt b c
  | SetConnected b => with_connected b c
  | SetThread t => with_thread t c
  end.

Section Transport.

Variable float_repr : Q -> string.

(** [str(v)] as an f-string formats a decoded JSON value. *)
Variable py_str : json -> string.

Definition dumps (item : dict) : string := json_dumps float_repr (JObj item).

(** One step of the lifecycle thread. *)
Definition async_step (o : io) (c : WSClient) (l : Lifecycle)
  : WSClient * Lifecycle :=
  match at_pc l with
  | LoopHead =>
      if _stop_evt c then (c, goto Exited l) else (c, goto Connect l)
  | Connect =>
      match o with
      | Succeeds =>
          (with_connected true c,
           {| at_pc := Hello; backoff := 0.5; recv_task := recv_task l;
              wire := [] :: wire l; history := Opened :: history l;
              lc_logged := lc_logged l; lc_echoed := lc_echoed l |})
      | Fails e => (c, goto (Except e) l)
      end
  | Hello =>
      match o with
      | Succeeds =>
          (c, goto SenderHead
                (with_recv_task true
                   (transmit (dumps (hello_message (secret c))) l)))
      | Fails e => (c, goto (Except e) l)
      end
  | SenderHead =>
      if _stop_evt c then (c, goto Close l) else (c, goto Get l)
  | Get =>
      match get (tx_queue c) with
      | None => (c, goto SenderHead l)
      | Some (item, q) =>
          if is_str (Dict.get item "_type") "STOP"
          then (with_tx_queue q c, goto Close l)
          else (with_tx_queue q c, goto (Send item) l)
      end
  | Send item =>
      match o with
      | Succeeds => (c, goto SenderHead (transmit (dumps item) l))
      | Fails e =>
          (c, goto Close (lc_log ("[PrivateBridge] send failed: " ++ e) l))
      end
  | Close => (c, goto After (with_recv_task false l))
  | Except e =>
      if _stop_evt c then (c, goto After l)
      else (c, goto After (lc_log ("[PrivateBridge] connect error: " ++ e) l))
  | After =>
      if _stop_evt c
      then (with_connected false c, goto Exited l)
      else (with_connected false c, goto Sleep l)
  | Sleep =>
      (c, {| at_pc := LoopHead; backoff := Qmin (backoff l * 2) 5;
             recv_task := recv_task l; wire := wire l;
             history := Slept (backoff l) :: history l;
             lc_logged := lc_logged l; lc_echoed := lc_echoed l |})
  | Exited => (c, l)
  end.

(** The body of [_recv_loop] for one frame; [decoded] is what
    [json.loads(raw)] gives, [None] when it raises.  The answer is the
    lines echoed when the loop goes on to the next frame, and [None]
    when an exception leaves the loop through its outer handler. *)
Definition recv_frame (decoded : option json) : option (list string) :=
  match decoded with
  | None => Some []
  | Some (JObj data) =>
      let t := Dict.get data "type" in
      if is_str t "ack" then Some []
      else if is_str t "error" then
        let code := Dict.get_default data "code" JNull in
        let msg := Dict.get_default data "message" (JStr "") in
        Some ["[PrivateBridge] error: " ++ py_str code ++ " " ++ py_str msg]
      else Some []
  | Some _ => None
  end.

(** [_recv_loop] over the frames that arrive until the socket closes:
    the lines it echoes. *)
Fixpoint _recv_loop (frames : list (option json)) : list string :=
  match frames with
  | [] => []
  | decoded :: rest =>
      match recv_frame decoded with
      | Some lines => (lines ++ _recv_loop rest)%list
      | None => []
      end
  end.

(** What the lifecycle thread and its receiver task can do next. *)
Inductive label : Type :=
| Tick (o : io)
| Inbound (decoded : option json).

Definition lifecycle_step (lb : label) (c : WSClient) (l : Lifecycle)
  : WSClient * Lifecycle :=
  match lb with
  | Tick o => async_step o c l
  | Inbound decoded =>
      if recv_task l then
        match recv_frame decoded with
        | Some lines => (c, lc_echo lines l)
        | None => (c, with_recv_task false l)
        end
      else (c, l)
  end.

(** The lifecycle thread interleaved with the writes that other threads
    make to the client object. *)
Inductive action : Type :=
| Thread (lb : label)
| Env (w : interference).

Definition act (a : action) (s : WSClient * Lifecycle)
  : WSClient * Lifecycle :=
  match a with
  | Thread lb => lifecycle_step lb (fst s) (snd s)
  | Env w => (interfere w (fst s), snd s)
  end.

Definition run (acts : list action) (s : WSClient * Lifecycle)
  : WSClient * Lifecycle :=
  fold_left (fun s a => act a s) acts s.

(** *** The public operations *)

Definition is_alive (t : Lifecycle) : bool :=
  match at_pc t with Exited => false | _ => true end.

(** [start]; [websockets] tells whether the import of the module
    succeeded.  The second component is what is echoed. *)
Definition start (websockets : bool) (c : WSClient)
  : WSClient * list string :=
  if negb websockets
  then (c, ["[PrivateBridge] Missing dependency: pip install websockets"])
  else
    let running :=
      match _thread c with
      | Some t => is_alive t
      | None => false
      end in
    if running then (c, [])
    else (with_thread (Some Lifecycle_start) (with_stop_evt false c), []).

(** The thread the client holds, if any, takes a step. *)
Definition thread_step (c : WSClient) (lb : label) : WSClient :=
  match _thread c with
  | None => c
  | Some t =>
      let (c', t') := lifecycle_step lb c t in with_thread (Some t') c'
  end.

(** [stop]; [during_join] is what the lifecycle thread does while
    [join(timeout=2)] waits for it. *)
Definition stop (during_join : list label) (c : WSClient)
  : result WSClient :=
  let c1 := with_stop_evt true c in
  let c2 := match put_nowait (tx_queue c1) STOP_SENTINEL with
            | Ok q => with_tx_queue q c1
            | Raise _ => c1
            end in
  let c3 := match _thread c2 with
            | Some _ => fold_left thread_step during_join c2
            | None => c2
            end in
  Ok (with_connected false (with_thread None c3)).

Definition is_connected (c : WSClient) : bool := _connected c.

(** [send]; the second component is what is logged. *)
Definition send (c : WSClient) (payload : dict) : WSClient * list string :=
  match put_nowait (tx_queue c) payload with
  | Ok q => (with_tx_queue q c, [])
  | Raise e => (c, ["[PrivateBridge] enqueue failed: " ++ e])
  end.

End Transport.

(* ------------------------------------------------------------------ *)
(** ** Session driver: the event loop of [main] *)

(** What [eq.get] hands to the loop. *)
Inductive Event : Type :=
| World (connected : bool)                       (* type "world" *)
| OutgoingChatIntercept (message : option string)
                                     (* type "outgoing_chat_intercept" *)
| OtherEvent (type : string).                    (* any other type *)

(** The variables of [main] and what it has written to the host:
    [minescript.chat], [log] and [echo]. *)
Record Driver : Type := {
  client : WSClient;
  last_state_ms : Q;
  chatted : list string;
  logged : list string;
  echoed : list string;
  stopped : bool                     (* the loop was left by [break] *)
}.

(** The Command dictionary built in [main]. *)
Definition command_payload (cmd : Command) : dict :=
  let payload := [("type", JStr "command"); ("v", JInt PROTOCOL_VERSION);
                  ("name", JStr (name cmd))] in
  match args cmd with
  | [] => payload
  | _ :: _ => Dict.set payload "args" (JArr (map JStr (args cmd)))
  end.

(** The line logged for a command. *)
Definition command_log_line (cmd : Command) : string :=
  "[PrivateBridge] " ++ name cmd ++ " "
  ++ match args cmd with
     | [] => ""
     | _ :: _ => PyStr.join " " (args cmd)
     end.

Definition driver_send (payload : dict) (d : Driver) : Driver :=
  let (c, lines) := send (client d) payload in
  {| client := c; last_state_ms := last_state_ms d; chatted := chatted d;
     logged := (logged d ++ lines)%list; echoed := echoed d;
     stopped := stopped d |}.

(** The periodic state push at the top of an iteration. *)
Definition state_due (now_ms : Q) (d : Driver) : bool :=
  Qle_bool STATE_INTERVAL_MS (now_ms - last_state_ms d)
  && is_connected (client d).

Definition push_state (ms : Minescript) (now_ms : Q) (d : Driver) : Driver :=
  if state_due now_ms d then
    let d1 := {| client := client d; last_state_ms := now_ms;
                 chatted := chatted d; logged := logged d;
                 echoed := echoed d; stopped := stopped d |} in
    match build_state_payload ms with
    | Some st => driver_send st d1
    | None => d1
    end
  else d.

(** The handling of the event, if one arrived. *)
Definition handle_event (event : option Event) (d : Driver) : Driver :=
  match event with
  | None => d
  | Some (World connected) =>
      if negb connected then
        {| client := client d; last_state_ms := last_state_ms d;
           chatted := chatted d; logged := logged d;
           echoed := (echoed d
                      ++ ["[PrivateBridge] world disconnected, stopping."])%list;
           stopped := true |}
      else d
  | Some (OutgoingChatIntercept message) =>
      let msg := PyStr.strip (match message with
                              | Some m => m
                              | None => ""
                              end) in
      match parse_private_command msg with
      | None =>
          {| client := client d; last_state_ms := last_state_ms d;
             chatted := (chatted d ++ [msg])%list; logged := logged d;
             echoed := echoed d; stopped := stopped d |}
      | Some cmd =>
          let d1 := driver_send (command_payload cmd) d in
          {| client := client d1; last_state_ms := last_state_ms d1;
             chatted := chatted d1;
             logged := (logged d1 ++ [command_log_line cmd])%list;
             echoed := echoed d1; stopped := stopped d1 |}
      end
  | Some (OtherEvent _) => d
  end.

(** One pass through the body of the [while True] loop: the event that
    [eq.get] returned within its timeout ([None] when it raised), the
    clock read after it, and the host as the accessors see it. *)
Definition iteration (ms : Minescript) (now_ms : Q) (event : option Event)
           (d : Driver) : Driver :=
  handle_event event (push_state ms now_ms d).

(** The loop over successive passes, until a [break]. *)
Fixpoint main_loop (passes : list (Minescript * Q * option Event))
         (d : Driver) : Driver :=
  match passes with
  | [] => d
  | (ms, now_ms, event) :: rest =>
      let d' := iteration ms now_ms event d in
      if stopped d' then d' else main_loop rest d'
  end.

(** [main] before its loop: the client is created and started, and
    [last_state_ms = 0.0].  The banner echoed first is left out: it has an
    arrow character that is not in Latin-1. *)
Definition main_start (websockets : bool) (url secret : string) : Driver :=
  let (c, lines) := start websockets (WSClient_init url secret) in
  {| client := c; last_state_ms := 0; chatted := []; logged := [];
     echoed := lines;
     stopped := false |}.

(** The State dictionaries among queued items. *)
Definition is_state (item : dict) : bool :=
  is_str (Dict.get item "type") "state".

Definition states_enqueued (d : Driver) : nat :=
  List.length (filter is_state (items (tx_queue (client d)))).


(* ------------------------------------------------------------------ *)
(** ** Vocabulary of the properties *)

Module PyStrVocab.
Import PyStr.

(** No character of a string is whitespace. *)
Fixpoint nospace (s : string) : bool :=
  match s with
  | EmptyString => true
  | String c r => negb (isspace c) && nospace r
  end.

Definition starts_with_space (s : string) : bool :=
  match s with
  | EmptyString => false
  | String c _ => isspace c
  end.

End PyStrVocab.

(** The verbs of COMMAND_PATTERN. *)
Definition WHITELIST : list string := ["come"; "follow"; "mine"; "hello"].

(** The fallback host of the source, [_DummyMS]: no player, no target. *)
Definition DummyMS : Minescript :=
  {| player := Returns None;
     player_orientation := Returns (0, 0);
     player_get_targeted_block := Returns None |}.



(** *** Backoff *)

(** The backoff after [k] passes through [min(backoff * 2.0, 5.0)]. *)
Fixpoint backoff_after (b : Q) (k : nat) : Q :=
  match k with
  | O => b
  | S k' => Qmin (backoff_after b k' * 2) 5
  end.

(** The delay before the reconnect attempt number [k], counted from 0 at
    the first failure: start at 0.5, double, cap at 5. *)
Definition nth_delay (k : nat) : Q := backoff_after 0.5 k.

(** The delays slept, oldest first. *)
Fixpoint delays (h : list event) : list Q :=
  match h with
  | [] => []
  | Slept d :: h' => (delays h' ++ [d])%list
  | Opened :: h' => delays h'
  end.

(** How many times the thread has slept since it last opened a
    connection (or since it started). *)
Fixpoint sleeps_since_open (h : list event) : nat :=
  match h with
  | Slept _ :: h' => S (sleeps_since_open h')
  | _ => 0
  end.

(** Every delay in the history is the one the sequence gives for its
    rank since the last connection. *)
Fixpoint backoff_law (h : list event) : Prop :=
  match h with
  | [] => True
  | Slept d :: h' => d = nth_delay (sleeps_since_open h') /\ backoff_law h'
  | Opened :: h' => backoff_law h'
  end.

(** The program points inside [async with], where a connection is open. *)
Definition in_connection (p : pc) : bool :=
  match p with
  | Hello | SenderHead | Get | Send _ | Close => true
  | _ => false
  end.

(** The steps of one pass of the outer loop in which [connect] raises [e]:
    loop test, connect, handler, liveness reset, sleep. *)
Definition failed_attempt (e : string) : list action :=
  [Thread (Tick Succeeds); Thread (Tick (Fails e)); Thread (Tick Succeeds);
   Thread (Tick Succeeds); Thread (Tick Succeeds)].

Definition failed_attempts (es : list string) : list action :=
  flat_map failed_attempt es.

(** What the thread keeps true of its backoff. *)
Definition backoff_inv (l : Lifecycle) : Prop :=
  backoff l = nth_delay (sleeps_since_open (history l))
  /\ backoff_law (history l)
  /\ (in_connection (at_pc l) = true -> backoff l = 0.5).

(** *** Frames on a connection *)

(** A connection on which nothing was written yet, or whose first frame
    is [frame]. *)
Definition begins_with (frame : string) (conn : list string) : Prop :=
  conn = [] \/ exists rest, conn = frame :: rest.

(** What the thread keeps true of the frames it wrote: every connection
    begins with the hello; nothing is written yet when the hello is about
    to be sent, and the hello is written once the sender loop runs. *)
Definition hello_inv (frame : string) (l : Lifecycle) : Prop :=
  Forall (begins_with frame) (wire l)
  /\ match at_pc l with
     | Hello => exists older, wire l = [] :: older
     | SenderHead | Get | Send _ =>
         exists rest older, wire l = (frame :: rest) :: older
     | _ => True
     end.

(** The ticks of the lifecycle thread, none of which fails. *)
Definition ticks (n : nat) : list action := repeat (Thread (Tick Succeeds)) n.

(** [start] on a client, and afterwards its thread connects. *)
Definition restartable (float_repr : Q -> string) (py_str : json -> string)
           (c : WSClient) : Prop :=
  let c' := fst (start true c) in
  _thread c' = Some Lifecycle_start
  /\ is_alive Lifecycle_start = true
  /\ _stop_evt c' = false
  /\ is_connected
       (fold_left (thread_step float_repr py_str)
          [Tick Succeeds; Tick Succeeds] c') = true.

(** *** Encoded forms *)

(** The text of a State message, written out: the fixed part, and the
    [lookingAt] member when there is a target block. *)
Definition state_text (float_repr : Q -> string) (st : PlayerState)
           (looking : option BlockPos) : string :=
  PyStr.dq "{'type':'state','v':1,'position':{'x':" ++ float_repr (st_x st)
  ++ PyStr.dq ",'y':" ++ float_repr (st_y st)
  ++ PyStr.dq ",'z':" ++ float_repr (st_z st)
  ++ PyStr.dq "},'rotation':{'yaw':" ++ float_repr (st_yaw st)
  ++ PyStr.dq ",'pitch':" ++ float_repr (st_pitch st)
  ++ "}"
  ++ match looking with
     | None => "}"
     | Some b =>
         PyStr.dq ",'lookingAt':{'x':" ++ int_repr (bp_x b)
         ++ PyStr.dq ",'y':" ++ int_repr (bp_y b)
         ++ PyStr.dq ",'z':" ++ int_repr (bp_z b) ++ "}}"
     end.

(** *** Driver *)

Definition with_client (c : WSClient) (d : Driver) : Driver :=
  {| client := c; last_state_ms := last_state_ms d; chatted := chatted d;
     logged := logged d; echoed := echoed d; stopped := stopped d |}.

(** The driver once the lifecycle thread of its client has connected and
    sent the hello. *)
Definition connected_driver (float_repr : Q -> string)
           (py_str : json -> string) (url secret : string) : Driver :=
  let d := main_start true url secret in
  with_client (fold_left (thread_step float_repr py_str)
                 [Tick Succeeds; Tick Succeeds; Tick Succeeds] (client d)) d.

(** A pass in which no event arrives, at time [now_ms]. *)
Definition quiet_pass (ms : Minescript) (now_ms : Q)
  : Minescript * Q * option Event := (ms, now_ms, None).

(** The earliest time at which [k] State messages can have been emitted
    by a driver that started at 0. *)
Fixpoint due_time (k : nat) : Q :=
  match k with
  | O => 0
  | S k' => due_time k' + STATE_INTERVAL_MS
  end.

(** What the driver keeps true while the clock is at most [horizon]. *)
Definition cadence_inv (horizon : Q) (d : Driver) : Prop :=
  maxsize (tx_queue (client d)) = 0%nat
  /\ due_time (states_enqueued d) <= last_state_ms d
  /\ last_state_ms d <= horizon.

(** The host has a player, so that [build_state_payload] gives a
    payload. *)
Definition has_payload (ms : Minescript) : bool :=
  match build_state_payload ms with
  | Some _ => true
  | None => false
  end.

(** Stand-ins for the two interpreter functions, for closed examples. *)
Definition example_float_repr (x : Q) : string := "0.0".
Definition example_py_str (v : json) : string :=
  match v with
  | JStr s => s
  | JInt n => int_repr n
  | _ => "None"
  end.

(** *** Reading a target block back from its encoded text *)

(** A character of a decimal integer: a digit or the minus sign. *)
Definition is_int_char (c : ascii) : bool :=
  let n := N_of_ascii c in
  ((48 <=? n) && (n <=? 57) || (n =? 45))%N.

Fixpoint all_int_chars (s : string) : bool :=
  match s with
  | EmptyString => true
  | String c r => is_int_char c && all_int_chars r
  end.

(** The longest prefix made of integer characters, and what follows. *)
Fixpoint span_int (s : string) : string * string :=
  match s with
  | EmptyString => (EmptyString, EmptyString)
  | String c r =>
      if is_int_char c
      then let (tok, rest) := span_int r in (String c tok, rest)
      else (EmptyString, s)
  end.

(** The integer that a decimal text denotes. *)
Definition int_of_repr (s : string) : option Z :=
  option_map Z.of_int (NilZero.int_of_string s).

Definition read_int (s : string) : option (Z * string) :=
  let (tok, rest) := span_int s in
  match int_of_repr tok with
  | Some n => Some (n, rest)
  | None => None
  end.

(** [s] without its prefix [lit], when it has that prefix. *)
Fixpoint expect (lit s : string) : option string :=
  match lit, s with
  | EmptyString, _ => Some s
  | String a lit', String b s' =>
      if Ascii.eqb a b then expect lit' s' else None
  | String _ _, EmptyString => None
  end.

(** A receiver's reading of the text of a [lookingAt] member: an object
    with the integer members x, y and z, in that order. *)
Definition loads_block (text : string) : option (Z * Z * Z) :=
  match expect (PyStr.dq "{'x':") text with
  | None => None
  | Some s1 =>
      match read_int s1 with
      | None => None
      | Some (bx, s2) =>
          match expect (PyStr.dq ",'y':") s2 with
          | None => None
          | Some s3 =>
              match read_int s3 with
              | None => None
              | Some (by_, s4) =>
                  match expect (PyStr.dq ",'z':") s4 with
                  | None => None
                  | Some s5 =>
                      match read_int s5 with
                      | Some (bz, "}") => Some (bx, by_, bz)
                      | _ => None
                      end
                  end
              end
          end
      end
  end.

(* ------------------------------------------------------------------ *)
(** ** Further vocabulary *)



(** An upper bound on the steps the lifecycle thread still takes once
    the stop event is set, by program point. *)
Definition steps_to_exit (p : pc) : nat :=
  match p with
  | Exited => 0
  | LoopHead | After => 1
  | Close | Except _ | Sleep => 2
  | SenderHead => 3
  | Hello | Send _ => 4
  | Connect | Get => 5
  end.

(** The steps of the lifecycle thread itself among some actions. *)
Fixpoint count_ticks (acts : list action) : nat :=
  match acts with
  | [] => 0
  | Thread (Tick _) :: rest => S (count_ticks rest)
  | _ :: rest => count_ticks rest
  end.

(** An action that does not clear the stop event. *)
Definition keeps_stop (a : action) : Prop :=
  match a with
  | Env (SetStop false) => False
  | _ => True
  end.

(** An action that does not raise the liveness flag from outside. *)
Definition keeps_disconnected (a : action) : Prop :=
  match a with
  | Env (SetConnected true) => False
  | _ => True
  end.

(** An action that leaves the liveness flag to the lifecycle thread. *)
Definition leaves_connected (a : action) : Prop :=
  match a with
  | Env (SetConnected _) => False
  | _ => True
  end.

(** The program points between connections. *)
Definition between_connections (p : pc) : bool :=
  match p with
  | LoopHead | Connect | Sleep | Exited => true
  | _ => false
  end.

(** An item that the sender loop does not take for the stop sentinel. *)
Definition nonstop (item : dict) : bool :=
  negb (is_str (Dict.get item "_type") "STOP").

(** The items that other threads put on the queue in some actions. *)
Fixpoint puts (acts : list action) : list dict :=
  match acts with
  | [] => []
  | Env (Put item) :: rest => item :: puts rest
  | _ :: rest => puts rest
  end.

(** A frame that the receiver loop survives: one that does not decode,
    or one that decodes to an object. *)
Definition benign (decoded : option json) : Prop :=
  match decoded with
  | None | Some (JObj _) => True
  | Some _ => False
  end.

Definition is_error_frame (decoded : option json) : bool :=
  match decoded with
  | Some (JObj data) => is_str (Dict.get data "type") "error"
  | _ => false
  end.

(** One pass of the fallback loop of [main], taken when EventQueue cannot
    be imported: the periodic state push alone. *)
Definition fallback_iteration (ms : Minescript) (now_ms : Q) (d : Driver)
  : Driver :=
  if is_connected (client d)
     && Qle_bool STATE_INTERVAL_MS (now_ms - last_state_ms d)
  then
    let d1 := {| client := client d; last_state_ms := now_ms;
                 chatted := chatted d; logged := logged d;
                 echoed := echoed d; stopped := stopped d |} in
    match build_state_payload ms with
    | Some st => driver_send st d1
    | None => d1
    end
  else d.

(** A frame that encodes an item of [pool] which is not a stop item. *)
Definition from_queue (float_repr : Q -> string) (pool : list dict)
           (frame : string) : Prop :=
  exists item,
    In item pool /\ nonstop item = true /\ frame = dumps float_repr item.

(** What the client and its thread keep true of the payloads: what is
    queued, what is about to be sent and what was written after the first
    frame of a connection all come from [pool]. *)
Definition payloads_inv (float_repr : Q -> string) (pool : list dict)
           (s : WSClient * Lifecycle) : Prop :=
  incl (items (tx_queue (fst s))) pool
  /\ Forall (fun conn => Forall (from_queue float_repr pool) (tl conn))
       (wire (snd s))
  /\ match at_pc (snd s) with
     | Send item => In item pool /\ nonstop item = true
     | Hello => exists older, wire (snd s) = [] :: older
     | _ => True
     end.

(** What holds of the liveness flag when only the lifecycle thread
    raises it. *)
Definition idle_inv (s : WSClient * Lifecycle) : Prop :=
  between_connections (at_pc (snd s)) = true -> _connected (fst s) = false.

Definition streaming_inv (s : WSClient * Lifecycle) : Prop :=
  in_connection (at_pc (snd s)) = true -> _connected (fst s) = true.

(** A Command dictionary, by its type. *)
Definition is_command (item : dict) : bool :=
  is_str (Dict.get item "type") "command".

(** Two states of the client that differ at most in the queue. *)
Definition same_control (c c' : WSClient) : Prop :=
  url c' = url c /\ secret c' = secret c /\ _thread c' = _thread c
  /\ _stop_evt c' = _stop_evt c /\ _connected c' = _connected c.

(** What the driver may add to the queue: State and Command
    dictionaries, none of them a stop item. *)
Definition driver_payload (item : dict) : Prop :=
  (is_state item = true \/ is_command item = true) /\ nonstop item = true.

(** The driver extended the queue of [c] by [added] and changed nothing
    else of the client. *)
Definition appended (c c' : WSClient) (added : list dict) : Prop :=
  items (tx_queue c') = (items (tx_queue c) ++ added)%list
  /\ maxsize (tx_queue c') = maxsize (tx_queue c)
  /\ same_control c c'.
(* ================================================================== *)
(** * Properties *)

(* ------------------------------------------------------------------ *)
(** ** Strings *)

Module PyStrFacts.
Import PyStr PyStrVocab.

Ltac each_char c :=
  destruct c as [[] [] [] [] [] [] [] []].

Lemma isspace_lower_char (c : ascii) :
  isspace (lower_char c) = isspace c.
Proof. each_char c; reflexivity. Qed.

Lemma lower_char_slash (c : ascii) :
  lower_char c = "/"%char -> c = "/"%char.
Proof. each_char c; intro H; try reflexivity; discriminate H. Qed.

Lemma nospace_lower (s : string) : nospace (lower s) = nospace s.
Proof.
  induction s as [|c r IH]; simpl; [reflexivity|].
  now rewrite isspace_lower_char, IH.
Qed.


Lemma append_assoc (a b c : string) : (a ++ b) ++ c = a ++ (b ++ c).
Proof. induction a as [|x a IH]; simpl; [reflexivity | now rewrite IH]. Qed.


(** *** [split] *)

Lemma split_token (w tail : string) :
  w <> EmptyString ->
  nospace w = true ->
  starts_with_space tail = true \/ tail = EmptyString ->
  split (w ++ tail) = w :: split tail.
Proof.
  induction w as [|c w1 IH]; intros Hne Hns Htail; [contradiction|].
  simpl in Hns. apply andb_true_iff in Hns as [Hc Hw1].
  apply negb_true_iff in Hc.
  destruct w1 as [|c1 w2].
  - simpl. rewrite Hc.
    destruct tail as [|c' t]; [reflexivity|].
    destruct Htail as [Hsp | Hnil]; [|discriminate Hnil].
    simpl in Hsp. now rewrite Hsp.
  - assert (Hc1 : isspace c1 = false).
    { simpl in Hw1. apply andb_true_iff in Hw1 as [H1 _].
      now apply negb_true_iff in H1. }
    assert (IH' : split (String c1 w2 ++ tail) = String c1 w2 :: split tail).
    { apply IH; [discriminate | assumption | assumption]. }
    change (String c (String c1 w2) ++ tail)
      with (String c (String c1 w2 ++ tail)).
    change (String c1 w2 ++ tail) with (String c1 (w2 ++ tail)) in *.
    cbn [split]. rewrite Hc, Hc1.
    cbn [split] in IH'. rewrite Hc1 in IH'. now rewrite IH'.
Qed.

(** *** [strip] *)

Lemma lstrip_no_leading_space (s : string) :
  starts_with_space (lstrip s) = false.
Proof.
  induction s as [|c r IH]; simpl; [reflexivity|].
  destruct (isspace c) eqn:Hc; [exact IH | simpl; exact Hc].
Qed.

Lemma lstrip_fixed (s : string) :
  starts_with_space s = false -> lstrip s = s.
Proof. destruct s as [|c r]; simpl; [reflexivity | now intros ->]. Qed.

Lemma rstrip_no_leading_space (s : string) :
  starts_with_space s = false -> starts_with_space (rstrip s) = false.
Proof.
  destruct s as [|c r]; simpl; [reflexivity|].
  intros Hc. rewrite Hc, andb_false_r. simpl. exact Hc.
Qed.

Lemma rstrip_idempotent (s : string) : rstrip (rstrip s) = rstrip s.
Proof.
  induction s as [|c r IH]; simpl; [reflexivity|].
  destruct (is_empty (rstrip r) && isspace c) eqn:E; [reflexivity|].
  simpl. now rewrite IH, E.
Qed.

Lemma strip_idempotent (s : string) : strip (strip s) = strip s.
Proof.
  unfold strip.
  rewrite (lstrip_fixed (rstrip (lstrip s))).
  - apply rstrip_idempotent.
  - apply rstrip_no_leading_space, lstrip_no_leading_space.
Qed.

Lemma strip_no_leading_space (s : string) :
  starts_with_space (strip s) = false.
Proof. apply rstrip_no_leading_space, lstrip_no_leading_space. Qed.

End PyStrFacts.

(* ------------------------------------------------------------------ *)
(** ** The command pattern *)

Module ReFacts.
Import PyStr PyStrVocab PyStrFacts Re.

(** A literal word matches a prefix with the same lower-case form. *)
Lemma exec_word (w : string) :
  forall pos s k,
    exec true (word w) pos s k = true ->
    exists w' rest pos',
      s = w' ++ rest /\ lower w' = lower w /\ k pos' rest = true.
Proof.
  induction w as [|l w IH]; intros pos s k H; simpl in H.
  - exists EmptyString, s, pos. auto.
  - destruct s as [|c s']; [discriminate|].
    apply andb_true_iff in H as [Hl Hrest].
    unfold lit_matches in Hl. apply Ascii.eqb_eq in Hl.
    destruct (IH _ _ _ Hrest) as (w' & rest & pos' & -> & Hlow & Hk).
    exists (String c w'), rest, pos'. simpl.
    now rewrite Hlow, Hl.
Qed.

(** What [(?:\s|$)] accepts. *)
Lemma exec_tail (pos : nat) (s : string) :
  exec true (Alt Space Eol) pos s (fun _ _ => true) = true ->
  starts_with_space s = true \/ s = EmptyString.
Proof.
  simpl. intros H. apply orb_true_iff in H as [H | H].
  - destruct s as [|c r]; [discriminate|].
    left. simpl. now apply andb_true_iff in H as [H _].
  - destruct s as [|c [|c' r]]; simpl in H; [now right | | discriminate].
    left. simpl. rewrite andb_true_r in H.
    apply Ascii.eqb_eq in H. now subst c.
Qed.

(** The shape of a text that COMMAND_PATTERN matches. *)
Lemma COMMAND_PATTERN_shape (s : string) :
  COMMAND_PATTERN_match s = true ->
  exists w tail,
    s = String "/" (w ++ tail)
    /\ In (lower w) WHITELIST
    /\ (starts_with_space tail = true \/ tail = EmptyString).
Proof.
  unfold COMMAND_PATTERN_match, re_match, COMMAND_REGEX.
  cbn [exec]. intros H.
  apply andb_true_iff in H as [_ H].
  destruct s as [|c s']; [discriminate|].
  apply andb_true_iff in H as [Hc H].
  unfold lit_matches in Hc. apply Ascii.eqb_eq in Hc.
  symmetry in Hc. apply lower_char_slash in Hc. subst c.
  assert (Hword : forall v,
             exec true (word v) 1 s'
               (fun p s => exec true (Alt Space Eol) p s (fun _ _ => true))
             = true ->
             exists w tail,
               s' = w ++ tail /\ lower w = lower v
               /\ (starts_with_space tail = true \/ tail = EmptyString)).
  { intros v Hv.
    destruct (exec_word _ _ _ _ Hv) as (w & tail & pos' & -> & Hlow & Hk).
    exists w, tail. repeat split; [assumption|].
    now apply exec_tail in Hk. }
  repeat (apply orb_true_iff in H as [H | H]);
    apply Hword in H as (w & tail & -> & Hlow & Htail);
    exists w, tail; (split; [reflexivity|]); (split; [|assumption]);
    rewrite Hlow; simpl; tauto.
Qed.

Lemma whitelisted_word (w : string) :
  In (lower w) WHITELIST -> w <> EmptyString /\ nospace w = true.
Proof.
  intros Hin. split.
  - intros ->. simpl in Hin.
    repeat (destruct Hin as [Hin | Hin]; [discriminate|]). exact Hin.
  - rewrite <- nospace_lower. simpl in Hin.
    repeat (destruct Hin as [<- | Hin]; [reflexivity|]). contradiction.
Qed.

End ReFacts.

(* ------------------------------------------------------------------ *)
(** ** Command parser *)

Lemma parse_rejects_unmatched (msg : string) :
  COMMAND_PATTERN_match (PyStr.strip msg) = false ->
  parse_private_command msg = None.
Proof.
  intros H. unfold parse_private_command. rewrite H. simpl.
  now destruct (PyStr.is_empty msg).
Qed.

Lemma parse_accepts_matched (msg : string) :
  COMMAND_PATTERN_match (PyStr.strip msg) = true ->
  exists verb rest,
    PyStr.split (PyStr.slice_from_1 (PyStr.strip msg)) = verb :: rest
    /\ In (PyStr.lower verb) WHITELIST
    /\ parse_private_command msg
       = Some {| name := PyStr.lower verb; args := rest |}.
Proof.
  intros H.
  destruct (ReFacts.COMMAND_PATTERN_shape _ H) as (w & tail & Hs & Hin & Htail).
  destruct (ReFacts.whitelisted_word _ Hin) as [Hne Hns].
  exists w, (PyStr.split tail).
  assert (Hparts : PyStr.split (PyStr.slice_from_1 (PyStr.strip msg))
                   = w :: PyStr.split tail).
  { rewrite Hs. simpl. now apply PyStrFacts.split_token. }
  split; [exact Hparts|]. split; [exact Hin|].
  unfold parse_private_command.
  destruct msg as [|c r]; [discriminate Hs|].
  cbn [PyStr.is_empty]. rewrite H. cbn [negb]. cbv zeta. rewrite Hparts.
  f_equal. f_equal.
  destruct (PyStr.split tail); reflexivity.
Qed.

(** C1. Every line that, once trimmed, matches the whitelist pattern is
    parsed to a command: the trimmed text without its slash splits on
    whitespace into a first token and the remaining ones, the verb is the
    first token in lower case, and the arguments are the remaining tokens,
    unchanged and in order. *)
Theorem parse_private_command_recognised (msg : string) :
  COMMAND_PATTERN_match (PyStr.strip msg) = true ->
  exists verb rest,
    PyStr.split (PyStr.slice_from_1 (PyStr.strip msg)) = verb :: rest
    /\ parse_private_command msg
       = Some {| name := PyStr.lower verb; args := rest |}.
Proof.
  intros H.
  destruct (parse_accepts_matched _ H) as (verb & rest & Hsplit & _ & Hparse).
  now exists verb, rest.
Qed.

Lemma parse_private_command_recognised_witness :
  exists verb rest,
    PyStr.split (PyStr.slice_from_1 (PyStr.strip "  /CoMe  Foo   bar "))
    = verb :: rest
    /\ parse_private_command "  /CoMe  Foo   bar "
       = Some {| name := PyStr.lower verb; args := rest |}.
Proof.
  apply (parse_private_command_recognised "  /CoMe  Foo   bar ").
  reflexivity.
Defined.

(** The verb of a parsed command is one of the four whitelisted words. *)
Lemma parsed_verb_whitelisted (msg : string) (cmd : Command) :
  parse_private_command msg = Some cmd -> In (name cmd) WHITELIST.
Proof.
  intros Hp.
  destruct (COMMAND_PATTERN_match (PyStr.strip msg)) eqn:Hm.
  - destruct (parse_accepts_matched _ Hm) as (verb & rest & _ & Hin & Hparse).
    rewrite Hparse in Hp. injection Hp as <-. exact Hin.
  - rewrite (parse_rejects_unmatched _ Hm) in Hp. discriminate.
Qed.

Example parse_come : parse_private_command "/come 10 64 -5"
                     = Some {| name := "come"; args := ["10"; "64"; "-5"] |}.
Proof. reflexivity. Qed.

Example parse_no_slash : parse_private_command "hello there" = None.
Proof. reflexivity. Qed.

Example parse_longer_word : parse_private_command "/comet" = None.
Proof. reflexivity. Qed.

(* ------------------------------------------------------------------ *)
(** ** Session driver: lines that are not commands *)

Lemma push_state_chatted ms now_ms d :
  chatted (push_state ms now_ms d) = chatted d.
Proof.
  unfold push_state, driver_send.
  destruct (state_due now_ms d); [|reflexivity].
  destruct (build_state_payload ms); [|reflexivity].
  cbn. now destruct (send _ _).
Qed.

(** C2, as the code has it.  A line whose trimmed form does not match the
    whitelist pattern (an empty or whitespace-only line included, and a
    missing message read as the empty line) is not a command for the
    parser, and one pass of the driver hands the trimmed line to the
    host's chat exactly once; the client and the log are left as a pass
    without any event leaves them, so nothing is enqueued for the line. *)
Theorem unrecognised_line_redelivered_trimmed
        (ms : Minescript) (now_ms : Q) (message : option string) (d : Driver) :
  let line := match message with Some m => m | None => "" end in
  COMMAND_PATTERN_match (PyStr.strip line) = false ->
  parse_private_command line = None
  /\ let d' := iteration ms now_ms (Some (OutgoingChatIntercept message)) d in
     chatted d' = (chatted d ++ [PyStr.strip line])%list
     /\ client d' = client (iteration ms now_ms None d)
     /\ logged d' = logged (iteration ms now_ms None d).
Proof.
  intros line H. split; [now apply parse_rejects_unmatched|].
  unfold iteration. cbn [handle_event]. fold line.
  rewrite (parse_rejects_unmatched (PyStr.strip line))
    by now rewrite PyStrFacts.strip_idempotent.
  cbn. now rewrite push_state_chatted.
Qed.

Lemma unrecognised_line_redelivered_trimmed_witness :
  parse_private_command "  hello there " = None
  /\ let d := main_start true "ws://127.0.0.1:8080" "" in
     let d' := iteration DummyMS 125
                 (Some (OutgoingChatIntercept (Some "  hello there "))) d in
     chatted d' = (chatted d ++ ["hello there"])%list
     /\ client d' = client (iteration DummyMS 125 None d)
     /\ logged d' = logged (iteration DummyMS 125 None d).
Proof.
  apply (unrecognised_line_redelivered_trimmed DummyMS 125
           (Some "  hello there ")
           (main_start true "ws://127.0.0.1:8080" "")).
  reflexivity.
Defined.

(** C2 as stated fails: the line " hi" does not match the pattern, and
    what reaches the host's chat is "hi", not the line itself. *)
Lemma redelivery_is_not_verbatim :
  let line := " hi" in
  let d := main_start true "ws://127.0.0.1:8080" "" in
  let d' := iteration DummyMS 125 (Some (OutgoingChatIntercept (Some line))) d in
  COMMAND_PATTERN_match (PyStr.strip line) = false
  /\ parse_private_command line = None
  /\ chatted d' = ["hi"]
  /\ chatted d' <> (chatted d ++ [line])%list.
Proof.
  cbv zeta. repeat split; try reflexivity. discriminate.
Qed.


(* ------------------------------------------------------------------ *)
(** ** Transport client: the lifecycle thread *)

Lemma backoff_after_shift (b : Q) (k : nat) :
  backoff_after (Qmin (b * 2) 5) k = backoff_after b (S k).
Proof. induction k as [|k IH]; simpl; [reflexivity | now rewrite IH]. Qed.

Lemma nth_delay_capped (k : nat) : (4 <= k)%nat -> nth_delay k == 5.
Proof.
  induction 1 as [|k Hk IH].
  - vm_compute. reflexivity.
  - unfold nth_delay in *. simpl. rewrite IH.
    apply Q.min_r. vm_compute. discriminate.
Qed.

Section LifecycleFacts.

Variable float_repr : Q -> string.
Variable py_str : json -> string.

Local Abbreviation Step := (lifecycle_step float_repr py_str).
Local Abbreviation Run := (run float_repr py_str).
Local Abbreviation Act := (act float_repr py_str).

Lemma run_app (a b : list action) (s : WSClient * Lifecycle) :
  Run (a ++ b) s = Run b (Run a s).
Proof. apply fold_left_app. Qed.

Lemma run_snoc (acts : list action) (a : action) (s : WSClient * Lifecycle) :
  Run (acts ++ [a]) s = Act a (Run acts s).
Proof. now rewrite run_app. Qed.

(** An invariant of the thread's own state holds in every execution when
    it holds at the start and every step of the thread keeps it; the other
    threads cannot reach that state. *)
Lemma lifecycle_invariant (P : Lifecycle -> Prop) :
  (forall lb c l, P l -> P (snd (Step lb c l))) ->
  forall acts c l, P l -> P (snd (Run acts (c, l))).
Proof.
  intros Hstep acts.
  induction acts as [|a acts IH] using rev_ind; intros c l HP.
  - exact HP.
  - rewrite run_snoc. specialize (IH c l HP).
    destruct (Run acts (c, l)) as [c' l'].
    destruct a as [lb | w]; simpl in *; [now apply Hstep | exact IH].
Qed.

(** *** Backoff *)

Lemma backoff_inv_step lb c l :
  backoff_inv l -> backoff_inv (snd (Step lb c l)).
Proof.
  intros (Hb & Hlaw & Hconn).
  destruct lb as [o | decoded]; simpl.
  - unfold async_step.
    destruct (at_pc l) eqn:Hpc; simpl in Hconn;
      repeat match goal with
        | |- context [if ?b then _ else _] => destruct b
        | |- context [match ?o with Succeeds => _ | Fails _ => _ end] =>
            destruct o
        | |- context [match get ?q with _ => _ end] =>
            destruct (get q) as [[? ?]|]
        end;
      unfold backoff_inv; simpl; rewrite ?Hpc; simpl;
      try (repeat split; auto; discriminate).
    (* Sleep *)
    split; [now rewrite Hb | split; [now split | discriminate]].
  - destruct (recv_task l); [destruct (recv_frame py_str decoded)|];
      unfold backoff_inv; simpl; auto.
Qed.

Lemma backoff_inv_run acts c :
  backoff_inv (snd (Run acts (c, Lifecycle_start))).
Proof.
  apply lifecycle_invariant.
  - intros. now apply backoff_inv_step.
  - unfold backoff_inv. simpl. auto.
Qed.

Lemma failed_attempt_effect e c l :
  _stop_evt c = false -> at_pc l = LoopHead ->
  exists c' l',
    Run (failed_attempt e) (c, l) = (c', l')
    /\ _stop_evt c' = false /\ at_pc l' = LoopHead
    /\ backoff l' = Qmin (backoff l * 2) 5
    /\ history l' = Slept (backoff l) :: history l.
Proof.
  intros Hstop Hpc.
  destruct c as [u s q t se cn], l as [p b r w h lg ec].
  simpl in Hstop, Hpc. subst se p.
  eexists _, _. split; [reflexivity|]. simpl. auto.
Qed.

Lemma failed_attempts_delays es :
  forall c l,
    _stop_evt c = false -> at_pc l = LoopHead ->
    delays (history (snd (Run (failed_attempts es) (c, l))))
    = (delays (history l)
       ++ map (backoff_after (backoff l)) (seq 0 (List.length es)))%list.
Proof.
  induction es as [|e es IH]; intros c l Hstop Hpc.
  - simpl. now rewrite app_nil_r.
  - unfold failed_attempts. cbn [flat_map]. rewrite run_app.
    destruct (failed_attempt_effect e c l Hstop Hpc)
      as (c' & l' & -> & Hstop' & Hpc' & Hb' & Hh').
    fold (failed_attempts es). rewrite (IH c' l' Hstop' Hpc').
    rewrite Hh', Hb'. cbn [delays List.length seq map backoff_after].
    rewrite <- app_assoc. f_equal. cbn [app]. f_equal.
    rewrite <- seq_shift, map_map.
    apply map_ext. intros k. apply backoff_after_shift.
Qed.

(** C3. The delays before successive reconnect attempts are 0.5, 1, 2, 4,
    5, 5, ... seconds, each the double of the one before capped at 5: that
    is what a run of failed connects sleeps, from the start of the thread;
    and in every execution each delay slept is the one of its rank since
    the last connection was opened, the backoff being back at the floor
    0.5 at every program point where a connection is open, hence after
    every successful handshake. *)
Theorem backoff_sequence :
  (nth_delay 0 == 0.5 /\ nth_delay 1 == 1 /\ nth_delay 2 == 2
   /\ nth_delay 3 == 4 /\ forall k, (4 <= k)%nat -> nth_delay k == 5)
  /\ (forall k, nth_delay (S k) = Qmin (nth_delay k * 2) 5)
  /\ (forall es c,
        _stop_evt c = false ->
        delays (history (snd (Run (failed_attempts es) (c, Lifecycle_start))))
        = map nth_delay (seq 0 (List.length es)))
  /\ (forall acts c,
        let l := snd (Run acts (c, Lifecycle_start)) in
        backoff_law (history l)
        /\ (in_connection (at_pc l) = true -> backoff l = 0.5)).
Proof.
  split; [|split; [|split]].
  - repeat split; try (vm_compute; reflexivity). apply nth_delay_capped.
  - reflexivity.
  - intros es c Hstop.
    now rewrite (failed_attempts_delays es c Lifecycle_start Hstop eq_refl).
  - intros acts c l.
    destruct (backoff_inv_run acts c) as (_ & Hlaw & Hconn). now split.
Qed.

(** *** The hello frame *)

Lemma run_invariant (P : WSClient * Lifecycle -> Prop) :
  (forall a s, P s -> P (Act a s)) ->
  forall acts s, P s -> P (Run acts s).
Proof.
  intros Hact acts.
  induction acts as [|a acts IH] using rev_ind; intros s HP.
  - exact HP.
  - rewrite run_snoc. apply Hact, IH, HP.
Qed.

Lemma interfere_secret w c : secret (interfere w c) = secret c.
Proof.
  destruct w; simpl; try reflexivity.
  - now destruct (put_nowait (tx_queue c) item).
  - now destruct (get (tx_queue c)) as [[? ?]|].
Qed.

Lemma step_secret lb c l : secret (fst (Step lb c l)) = secret c.
Proof.
  destruct lb as [o | decoded]; simpl.
  - unfold async_step.
    destruct (at_pc l); try destruct o; try destruct (_stop_evt c);
      try reflexivity;
      (destruct (get (tx_queue c)) as [[item q]|]; [|reflexivity]);
      now destruct (is_str (Dict.get item "_type") "STOP").
  - destruct (recv_task l); [|reflexivity].
    now destruct (recv_frame py_str decoded).
Qed.

Lemma hello_inv_step sec lb c l :
  secret c = sec ->
  hello_inv (dumps float_repr (hello_message sec)) l ->
  hello_inv (dumps float_repr (hello_message sec)) (snd (Step lb c l)).
Proof.
  intros Hsec [Hall Hpc]. subst sec.
  destruct lb as [o | decoded]; simpl.
  - destruct l as [p b r w h lg ec]. unfold hello_inv in *. simpl in *.
    unfold async_step. simpl.
    destruct p; simpl;
      repeat match goal with
        | |- context [if ?b then _ else _] => destruct b; simpl
        | |- context [match ?o with Succeeds => _ | Fails _ => _ end] =>
            destruct o; simpl
        | |- context [match get ?q with _ => _ end] =>
            destruct (get q) as [[? ?]|]; simpl
        end;
      try (split; [assumption | exact I || assumption]).
    + (* Connect, success *)
      split; [constructor; [now left | assumption] | now exists w].
    + (* Hello, success *)
      destruct Hpc as [older ->]. inversion Hall; subst.
      split; [constructor; [right; now exists [] | assumption]|].
      now exists [], older.
    + (* Send, success *)
      destruct Hpc as (rest & older & ->). inversion Hall; subst.
      split; [constructor; [right; now exists (rest ++ [dumps float_repr item])%list | assumption]|].
      now exists (rest ++ [dumps float_repr item])%list, older.
  - destruct (recv_task l); [destruct (recv_frame py_str decoded)|];
      unfold hello_inv in *; simpl; now split.
Qed.

Lemma hello_inv_run acts c :
  hello_inv (dumps float_repr (hello_message (secret c)))
    (snd (Run acts (c, Lifecycle_start))).
Proof.
  pose (P := fun s : WSClient * Lifecycle =>
               secret (fst s) = secret c
               /\ hello_inv (dumps float_repr (hello_message (secret c)))
                    (snd s)).
  enough (HP : P (Run acts (c, Lifecycle_start))) by apply HP.
  apply run_invariant.
  - intros a [c' l'] [Hs Hi]. unfold P in *. simpl in *.
    destruct a as [lb | w]; simpl.
    + split; [now rewrite step_secret | now apply hello_inv_step].
    + split; [now rewrite interfere_secret | assumption].
  - split; [reflexivity|]. unfold hello_inv. simpl. split; [constructor | exact I].
Qed.

Lemma hello_message_fields sec :
  Dict.get (hello_message sec) "type" = Some (JStr "hello")
  /\ Dict.get (hello_message sec) "v" = Some (JInt PROTOCOL_VERSION)
  /\ Dict.get (hello_message sec) "secret"
     = if PyStr.is_empty sec then None else Some (JStr sec).
Proof. unfold hello_message. destruct sec; simpl; auto. Qed.

(** C6. In every execution, every connection on which the thread has
    written anything has the hello as its first frame; the hello carries
    the type, the protocol version, and the secret exactly when the
    configured secret is not empty; and the sender loop streams a queued
    item right after the hello, in a run in which no inbound frame is
    received at all. *)
Theorem hello_is_first_frame :
  (forall acts c,
      Forall (begins_with (dumps float_repr (hello_message (secret c))))
        (wire (snd (Run acts (c, Lifecycle_start)))))
  /\ (forall sec,
         Dict.get (hello_message sec) "type" = Some (JStr "hello")
         /\ Dict.get (hello_message sec) "v" = Some (JInt PROTOCOL_VERSION)
         /\ Dict.get (hello_message sec) "secret"
            = if PyStr.is_empty sec then None else Some (JStr sec))
  /\ (forall url sec item,
         is_str (Dict.get item "_type") "STOP" = false ->
         let c := fst (send (WSClient_init url sec) item) in
         wire (snd (Run (ticks 6) (c, Lifecycle_start)))
         = [[dumps float_repr (hello_message sec); dumps float_repr item]]).
Proof.
  split; [|split].
  - intros acts c. apply hello_inv_run.
  - apply hello_message_fields.
  - intros url sec item Hitem c. subst c. unfold ticks, run.
    cbn -[dumps hello_message Dict.get is_str].
    rewrite Hitem. reflexivity.
Qed.

(** *** The stop sentinel *)

Lemma stop_item_dequeued o c l item rest :
  is_str (Dict.get item "_type") "STOP" = true ->
  at_pc l = Get ->
  items (tx_queue c) = item :: rest ->
  async_step float_repr o c l
  = (with_tx_queue {| maxsize := maxsize (tx_queue c); items := rest |} c,
     goto Close l).
Proof.
  intros Hstop Hpc Hq. unfold async_step, get.
  now rewrite Hpc, Hq, Hstop.
Qed.

(** C10. A payload whose [_type] is "STOP", once it is the item the sender
    loop dequeues, ends the loop exactly as the sentinel of [stop] does:
    the step is the same as with the sentinel in its place, nothing is
    written to the connection, the item is gone from the queue, and the
    stop event is left as it was, so [stop] need not have been called.
    The same holds when the payload comes through [send] on an empty
    queue. *)
Theorem stop_payload_ends_sender_loop (payload : dict) :
  Dict.get payload "_type" = Some (JStr "STOP") ->
  (forall o c l rest,
      at_pc l = Get ->
      items (tx_queue c) = payload :: rest ->
      let with_sentinel :=
        with_tx_queue {| maxsize := maxsize (tx_queue c);
                         items := STOP_SENTINEL :: rest |} c in
      let after := async_step float_repr o c l in
      after = async_step float_repr o with_sentinel l
      /\ at_pc (snd after) = Close
      /\ wire (snd after) = wire l
      /\ items (tx_queue (fst after)) = rest
      /\ _stop_evt (fst after) = _stop_evt c)
  /\ (forall o c l,
         at_pc l = Get ->
         tx_queue c = Queue_new ->
         async_step float_repr o (fst (send c payload)) l
         = async_step float_repr o (fst (send c STOP_SENTINEL)) l
         /\ snd (async_step float_repr o (fst (send c payload)) l)
            = goto Close l).
Proof.
  intros Hp.
  assert (Hstop : is_str (Dict.get payload "_type") "STOP" = true)
    by now rewrite Hp.
  split.
  - intros o c l rest Hpc Hq with_sentinel after. subst after.
    rewrite (stop_item_dequeued o c l payload rest Hstop Hpc Hq).
    rewrite (stop_item_dequeued o with_sentinel l STOP_SENTINEL rest
               eq_refl Hpc eq_refl).
    subst with_sentinel. destruct c; simpl. repeat split; reflexivity.
  - intros o c l Hpc Hq. unfold send, put_nowait. rewrite Hq. simpl.
    rewrite (stop_item_dequeued o
               (with_tx_queue {| maxsize := 0; items := [payload] |} c)
               l payload [] Hstop Hpc eq_refl).
    rewrite (stop_item_dequeued o
               (with_tx_queue {| maxsize := 0; items := [STOP_SENTINEL] |} c)
               l STOP_SENTINEL [] eq_refl Hpc eq_refl).
    split; reflexivity.
Qed.

(** *** The receiver *)

Lemma recv_frame_undecodable : recv_frame py_str None = Some [].
Proof. reflexivity. Qed.

Lemma recv_frame_error (data : dict) :
  is_str (Dict.get data "type") "error" = true ->
  recv_frame py_str (Some (JObj data))
  = Some ["[PrivateBridge] error: "
          ++ py_str (Dict.get_default data "code" JNull) ++ " "
          ++ py_str (Dict.get_default data "message" (JStr ""))].
Proof.
  intros H. simpl. rewrite H.
  destruct (Dict.get data "type") as [[]|]; try discriminate H.
  simpl in *. apply String.eqb_eq in H. now subst.
Qed.

Lemma recv_frame_other (data : dict) :
  is_str (Dict.get data "type") "error" = false ->
  recv_frame py_str (Some (JObj data)) = Some [].
Proof.
  intros H. simpl. rewrite H.
  now destruct (is_str (Dict.get data "type") "ack").
Qed.

(** A frame that decodes to an object, or does not decode, leaves the
    receiver task running and the thread where it is. *)
Lemma inbound_object_keeps_receiving (decoded : option json) c l :
  match decoded with
  | None | Some (JObj _) => True
  | _ => False
  end ->
  let s := Step (Inbound decoded) c l in
  fst s = c /\ recv_task (snd s) = recv_task l /\ at_pc (snd s) = at_pc l
  /\ wire (snd s) = wire l.
Proof.
  intros Hd. simpl. destruct (recv_task l) eqn:Hr; [|auto].
  destruct decoded as [[]|]; try contradiction; simpl.
  - destruct (is_str (Dict.get fields "type") "ack"); [|destruct (is_str _ _)];
      simpl; auto.
  - auto.
Qed.

(** C7, where the code departs from it.  A frame that [json.loads] accepts
    but that is not an object (here the empty array) makes [data.get]
    raise; the outer handler of [_recv_loop] swallows the exception and the
    loop is over: an error frame that arrives next is not surfaced, whereas
    it is after a frame that does not decode at all.  In the running
    client the receiver task is gone after such a frame. *)
Theorem recv_loop_ends_on_non_object_frame :
  let error_frame :=
    Some (JObj [("type", JStr "error"); ("code", JInt 7);
                ("message", JStr "boom")]) in
  let line :=
    "[PrivateBridge] error: " ++ py_str (JInt 7) ++ " " ++ py_str (JStr "boom") in
  _recv_loop py_str [None; error_frame] = [line]
  /\ recv_frame py_str (Some (JArr [])) = None
  /\ _recv_loop py_str [Some (JArr []); error_frame] = []
  /\ forall c l,
       recv_task
         (snd (Step (Inbound (Some (JArr []))) c (with_recv_task true l)))
       = false.
Proof. cbv zeta. repeat split. Qed.

(** *** [start] and [stop] *)

Lemma restartable_without_thread (c : WSClient) :
  _thread c = None -> restartable float_repr py_str c.
Proof.
  destruct c as [u s q t se cn]. simpl. intros ->.
  unfold restartable. simpl. auto.
Qed.

Lemma stop_returns (during_join : list label) (c : WSClient) :
  exists c',
    stop float_repr py_str during_join c = Ok c'
    /\ is_connected c' = false /\ _thread c' = None.
Proof. unfold stop. eexists. split; [reflexivity|]. now simpl. Qed.

(** C8. [stop] returns without raising when it is called before [start]
    and when it is called twice in a row, on any client and whatever the
    lifecycle thread does while [join] waits; afterwards the client is
    not connected and holds no thread, and a [start] gives it a live
    lifecycle thread with the stop event cleared, which connects. *)
Theorem stop_is_repeatable
        (url sec : string) (c : WSClient) (d1 d2 : list label) :
  (exists c',
      stop float_repr py_str d1 (WSClient_init url sec) = Ok c'
      /\ is_connected c' = false /\ _thread c' = None
      /\ restartable float_repr py_str c')
  /\ (exists c1 c2,
         stop float_repr py_str d1 c = Ok c1
         /\ stop float_repr py_str d2 c1 = Ok c2
         /\ is_connected c2 = false /\ _thread c2 = None
         /\ restartable float_repr py_str c2).
Proof.
  split.
  - destruct (stop_returns d1 (WSClient_init url sec)) as (c' & H & Hc & Ht).
    exists c'. repeat split; try assumption.
    all: now apply restartable_without_thread.
  - destruct (stop_returns d1 c) as (c1 & H1 & _ & _).
    destruct (stop_returns d2 c1) as (c2 & H2 & Hc & Ht).
    exists c1, c2. repeat split; try assumption.
    all: now apply restartable_without_thread.
Qed.

End LifecycleFacts.

(* ------------------------------------------------------------------ *)
(** ** Message codec *)

(** *** Integers as decimal text *)

Lemma uint_chars (d : Decimal.uint) :
  all_int_chars (NilEmpty.string_of_uint d) = true.
Proof. induction d; simpl; auto. Qed.

Lemma int_repr_chars (n : Z) : all_int_chars (int_repr n) = true.
Proof.
  unfold int_repr. destruct n as [|p|p]; simpl; [reflexivity| |];
    unfold NilZero.string_of_uint;
    destruct (Pos.to_uint p) eqn:E; try reflexivity;
    rewrite <- E; apply uint_chars.
Qed.

Lemma int_of_repr_int_repr (n : Z) : int_of_repr (int_repr n) = Some n.
Proof.
  unfold int_of_repr, int_repr.
  rewrite NilZero.isi.
  - simpl. now rewrite DecimalZ.of_to.
  - destruct n as [|p|p]; simpl; try discriminate.
    intros [= H]. now apply DecimalPos.Unsigned.to_uint_nonnil in H.
  - destruct n as [|p|p]; simpl; try discriminate.
    intros [= H]. now apply DecimalPos.Unsigned.to_uint_nonnil in H.
Qed.

Lemma span_int_token (tok : string) (d : ascii) (rest : string) :
  all_int_chars tok = true ->
  is_int_char d = false ->
  span_int (tok ++ String d rest) = (tok, String d rest).
Proof.
  intros Htok Hd. induction tok as [|c tok IH]; simpl.
  - now rewrite Hd.
  - simpl in Htok. apply andb_true_iff in Htok as [Hc Htok].
    now rewrite Hc, (IH Htok).
Qed.

Lemma read_int_repr (n : Z) (d : ascii) (rest : string) :
  is_int_char d = false ->
  read_int (int_repr n ++ String d rest) = Some (n, String d rest).
Proof.
  intros Hd. unfold read_int.
  rewrite (span_int_token (int_repr n) d rest (int_repr_chars n) Hd).
  now rewrite int_of_repr_int_repr.
Qed.

Lemma read_int_before (n : Z) (lit s : string) :
  match lit with
  | String d _ => is_int_char d = false
  | EmptyString => False
  end ->
  read_int (int_repr n ++ lit ++ s) = Some (n, lit ++ s).
Proof.
  destruct lit as [|d lit]; [contradiction|]. intros Hd. simpl.
  now apply read_int_repr.
Qed.

Lemma expect_prefix (lit s : string) : expect lit (lit ++ s) = Some s.
Proof.
  induction lit as [|a lit IH]; simpl; [now destruct s|].
  now rewrite Ascii.eqb_refl.
Qed.

Section CodecFacts.

Variable float_repr : Q -> string.

Lemma append_cancel_l (p a b : string) : p ++ a = p ++ b -> a = b.
Proof.
  induction p as [|c p IH]; simpl; intros H; [exact H|].
  injection H as H. now apply IH.
Qed.

Lemma state_text_absent_differs st b :
  state_text float_repr st None <> state_text float_repr st (Some b).
Proof.
  unfold state_text. intros H.
  repeat (apply append_cancel_l in H).
  discriminate H.
Qed.

Lemma build_state_payload_text ms st :
  get_player_state ms = Some st ->
  exists payload,
    build_state_payload ms = Some payload
    /\ json_dumps float_repr (JObj payload)
       = state_text float_repr st (get_crosshair_block ms).
Proof.
  intros Hst. unfold build_state_payload. rewrite Hst.
  destruct (get_crosshair_block ms) as [b|];
    eexists; (split; [reflexivity|]);
    unfold state_text; cbn -[int_repr];
    repeat (rewrite PyStrFacts.append_assoc; cbn -[int_repr]); reflexivity.
Qed.

Lemma crosshair_of_target ms x y z :
  player_get_targeted_block ms
  = Returns (Some {| block_position := (x, y, z) |}) ->
  get_crosshair_block ms = Some {| bp_x := x; bp_y := y; bp_z := z |}.
Proof. unfold get_crosshair_block. now intros ->. Qed.

Lemma loads_block_dumps (b : BlockPos) :
  loads_block (json_dumps float_repr (looking_json b))
  = Some (bp_x b, bp_y b, bp_z b).
Proof.
  assert (Htext : json_dumps float_repr (looking_json b)
                  = PyStr.dq "{'x':" ++ int_repr (bp_x b)
                    ++ PyStr.dq ",'y':" ++ int_repr (bp_y b)
                    ++ PyStr.dq ",'z':" ++ int_repr (bp_z b) ++ "}").
  { unfold looking_json. cbn -[int_repr].
    repeat (rewrite PyStrFacts.append_assoc; cbn -[int_repr]). reflexivity. }
  rewrite Htext. unfold loads_block.
  rewrite expect_prefix.
  rewrite read_int_before by reflexivity.
  rewrite expect_prefix.
  rewrite read_int_before by reflexivity.
  rewrite expect_prefix.
  now rewrite read_int_repr by reflexivity.
Qed.

(** C4. When the host reports a player: with a target block at (x, y, z)
    the State message carries [lookingAt], a receiver reads back exactly
    (x, y, z) from it, from the dictionary as from the encoded text of the
    member, and the encoded message has the three integers; with
    no target block the message has no [lookingAt] member at all, neither
    null nor zeros, and its encoded text differs from the text of every
    message that has a target block, the block (0, 0, 0) included. *)
Theorem lookingAt_round_trip (ms : Minescript) (st : PlayerState) :
  get_player_state ms = Some st ->
  (forall x y z,
      player_get_targeted_block ms
      = Returns (Some {| block_position := (x, y, z) |}) ->
      exists payload member,
        build_state_payload ms = Some payload
        /\ decode_lookingAt payload = Some (x, y, z)
        /\ Dict.get payload "lookingAt" = Some member
        /\ loads_block (json_dumps float_repr member) = Some (x, y, z)
        /\ json_dumps float_repr (JObj payload)
           = state_text float_repr st
               (Some {| bp_x := x; bp_y := y; bp_z := z |}))
  /\ (get_crosshair_block ms = None ->
      exists payload,
        build_state_payload ms = Some payload
        /\ Dict.get payload "lookingAt" = None
        /\ decode_lookingAt payload = None
        /\ json_dumps float_repr (JObj payload)
           = state_text float_repr st None
        /\ forall b,
             state_text float_repr st None
             <> state_text float_repr st (Some b)).
Proof.
  intros Hst.
  destruct (build_state_payload_text ms st Hst) as (payload & Hb & Htext).
  split.
  - intros x y z Ht. apply crosshair_of_target in Ht.
    exists payload, (looking_json {| bp_x := x; bp_y := y; bp_z := z |}).
    rewrite Ht in Htext.
    split; [assumption|].
    unfold build_state_payload in Hb. rewrite Hst, Ht in Hb.
    injection Hb as Hb. rewrite <- Hb at 1 2.
    split; [reflexivity|]. split; [reflexivity|].
    split; [apply loads_block_dumps | assumption].
  - intros Hnone. exists payload. rewrite Hnone in Htext.
    split; [assumption|].
    unfold build_state_payload in Hb. rewrite Hst, Hnone in Hb.
    injection Hb as Hb. rewrite <- Hb at 1 2.
    split; [reflexivity|]. split; [reflexivity|].
    split; [assumption|]. apply state_text_absent_differs.
Qed.

End CodecFacts.

(* ------------------------------------------------------------------ *)
(** ** Session driver *)

Lemma is_state_built ms payload :
  build_state_payload ms = Some payload -> is_state payload = true.
Proof.
  unfold build_state_payload.
  destruct (get_player_state ms); [|discriminate].
  destruct (get_crosshair_block ms); intros H; injection H as <-; reflexivity.
Qed.

Lemma is_state_command cmd : is_state (command_payload cmd) = false.
Proof. unfold command_payload. destruct (args cmd); reflexivity. Qed.

Lemma command_payload_fields cmd :
  let payload := command_payload cmd in
  Dict.get payload "type" = Some (JStr "command")
  /\ Dict.get payload "v" = Some (JInt PROTOCOL_VERSION)
  /\ Dict.get payload "name" = Some (JStr (name cmd))
  /\ Dict.get payload "args"
     = match args cmd with
       | [] => None
       | _ :: _ => Some (JArr (map JStr (args cmd)))
       end.
Proof. unfold command_payload. destruct (args cmd); simpl; auto. Qed.

(** [send] on the unbounded queue of the client appends the payload and
    logs nothing. *)
Lemma driver_send_unbounded payload d :
  maxsize (tx_queue (client d)) = 0%nat ->
  let d' := driver_send payload d in
  items (tx_queue (client d')) = (items (tx_queue (client d)) ++ [payload])%list
  /\ maxsize (tx_queue (client d')) = 0%nat
  /\ is_connected (client d') = is_connected (client d)
  /\ last_state_ms d' = last_state_ms d
  /\ chatted d' = chatted d /\ logged d' = logged d
  /\ stopped d' = stopped d.
Proof.
  intros Hmax. unfold driver_send, send, put_nowait. rewrite Hmax. simpl.
  rewrite app_nil_r. auto 10.
Qed.

Lemma states_enqueued_send payload d :
  maxsize (tx_queue (client d)) = 0%nat ->
  states_enqueued (driver_send payload d)
  = (states_enqueued d + if is_state payload then 1 else 0)%nat.
Proof.
  intros Hmax. unfold states_enqueued.
  destruct (driver_send_unbounded payload d Hmax) as (-> & _).
  rewrite filter_app, length_app. simpl.
  now destruct (is_state payload).
Qed.

Lemma push_state_effect ms now_ms d :
  maxsize (tx_queue (client d)) = 0%nat ->
  let d' := push_state ms now_ms d in
  states_enqueued d'
  = (states_enqueued d
     + if state_due now_ms d && has_payload ms then 1 else 0)%nat
  /\ last_state_ms d' = (if state_due now_ms d then now_ms else last_state_ms d)
  /\ maxsize (tx_queue (client d')) = 0%nat
  /\ is_connected (client d') = is_connected (client d)
  /\ stopped d' = stopped d.
Proof.
  intros Hmax. unfold push_state, has_payload.
  destruct (state_due now_ms d); simpl; [|rewrite Nat.add_0_r; auto].
  destruct (build_state_payload ms) as [st|] eqn:Hb.
  - set (d1 := {| client := client d; last_state_ms := now_ms;
                  chatted := chatted d; logged := logged d;
                  echoed := echoed d; stopped := stopped d |}).
    assert (Hmax1 : maxsize (tx_queue (client d1)) = 0%nat) by exact Hmax.
    rewrite (states_enqueued_send st d1 Hmax1), (is_state_built ms st Hb).
    destruct (driver_send_unbounded st d1 Hmax1)
      as (_ & Hm & Hc & Hl & _ & _ & Hs).
    auto.
  - simpl. rewrite Nat.add_0_r. auto.
Qed.

Lemma handle_event_effect event d :
  maxsize (tx_queue (client d)) = 0%nat ->
  let d' := handle_event event d in
  states_enqueued d' = states_enqueued d
  /\ last_state_ms d' = last_state_ms d
  /\ maxsize (tx_queue (client d')) = 0%nat.
Proof.
  intros Hmax.
  destruct event as [[connected | message | type]|]; simpl; auto.
  - destruct connected; simpl; auto.
  - destruct (parse_private_command _) as [cmd|]; [|simpl; auto].
    destruct (driver_send_unbounded (command_payload cmd) d Hmax)
      as (Hi & Hm & _ & Hl & _).
    unfold states_enqueued. cbn [client last_state_ms].
    rewrite Hi, filter_app, length_app. cbn [filter].
    rewrite is_state_command. simpl. rewrite Nat.add_0_r. auto.
Qed.

Lemma iteration_effect ms now_ms event d :
  maxsize (tx_queue (client d)) = 0%nat ->
  let d' := iteration ms now_ms event d in
  states_enqueued d'
  = (states_enqueued d
     + if state_due now_ms d && has_payload ms then 1 else 0)%nat
  /\ last_state_ms d' = (if state_due now_ms d then now_ms else last_state_ms d)
  /\ maxsize (tx_queue (client d')) = 0%nat.
Proof.
  intros Hmax. unfold iteration.
  destruct (push_state_effect ms now_ms d Hmax) as (Hn & Hl & Hm & _).
  destruct (handle_event_effect event (push_state ms now_ms d) Hm)
    as (Hn' & Hl' & Hm').
  cbv zeta. rewrite Hn', Hl', Hn, Hl. auto.
Qed.

(** *** Cadence *)

Lemma due_time_nonneg k : 0 <= due_time k.
Proof.
  induction k as [|k IH]; simpl; [apply Qle_refl|].
  unfold STATE_INTERVAL_MS. lra.
Qed.

Lemma due_time_bound k : due_time k <= 500 -> (k <= 4)%nat.
Proof.
  intros H.
  do 5 (destruct k as [|k]; [lia|]).
  exfalso. pose proof (due_time_nonneg k) as H0.
  simpl in H. unfold STATE_INTERVAL_MS in H. lra.
Qed.

Lemma cadence_inv_iteration horizon ms now_ms event d :
  now_ms <= horizon ->
  cadence_inv horizon d ->
  cadence_inv horizon (iteration ms now_ms event d).
Proof.
  intros Hnow (Hmax & Hdue & Hlast).
  destruct (iteration_effect ms now_ms event d Hmax) as (Hn & Hl & Hm).
  unfold cadence_inv. rewrite Hn, Hl. split; [exact Hm|].
  unfold state_due in *.
  destruct (Qle_bool STATE_INTERVAL_MS (now_ms - last_state_ms d)) eqn:Hq;
    simpl; [|rewrite Nat.add_0_r; now split].
  apply Qle_bool_iff in Hq.
  destruct (is_connected (client d)); simpl;
    [|rewrite Nat.add_0_r; now split].
  split; [|exact Hnow].
  destruct (has_payload ms).
  - rewrite Nat.add_1_r. simpl. lra.
  - rewrite Nat.add_0_r. unfold STATE_INTERVAL_MS in Hq. lra.
Qed.

Lemma cadence_inv_main_loop horizon passes :
  Forall (fun pass => snd (fst pass) <= horizon) passes ->
  forall d, cadence_inv horizon d -> cadence_inv horizon (main_loop passes d).
Proof.
  induction 1 as [|[[ms now_ms] event] passes Hnow _ IH]; intros d Hd.
  - exact Hd.
  - simpl. simpl in Hnow.
    pose proof (cadence_inv_iteration horizon ms now_ms event d Hnow Hd) as Hd'.
    destruct (stopped (iteration ms now_ms event d)); auto.
Qed.

Lemma at_most_four_states passes d :
  Forall (fun pass => snd (fst pass) <= 500) passes ->
  tx_queue (client d) = Queue_new ->
  last_state_ms d = 0 ->
  (states_enqueued (main_loop passes d) <= 4)%nat.
Proof.
  intros Hpasses Hq Hl.
  assert (Hd : cadence_inv 500 d).
  { unfold cadence_inv, states_enqueued. rewrite Hq, Hl. simpl.
    repeat split; [apply Qle_refl | lra]. }
  destruct (cadence_inv_main_loop 500 passes Hpasses d Hd) as (_ & Hdue & Hlast).
  apply due_time_bound. lra.
Qed.

Lemma quiet_pass_emits ms now_ms d :
  has_payload ms = true ->
  maxsize (tx_queue (client d)) = 0%nat ->
  is_connected (client d) = true ->
  stopped d = false ->
  Qle_bool STATE_INTERVAL_MS (now_ms - last_state_ms d) = true ->
  let d' := iteration ms now_ms None d in
  states_enqueued d' = S (states_enqueued d)
  /\ last_state_ms d' = now_ms
  /\ maxsize (tx_queue (client d')) = 0%nat
  /\ is_connected (client d') = true
  /\ stopped d' = false.
Proof.
  intros Hp Hmax Hc Hs Hq.
  destruct (push_state_effect ms now_ms d Hmax) as (Hn & Hl & Hm & Hc' & Hs').
  unfold iteration, handle_event. cbv zeta.
  unfold state_due in Hn, Hl. rewrite Hq, Hc in Hn, Hl. rewrite Hp in Hn.
  simpl in Hn, Hl. rewrite Hn, Hl, Hm, Hc', Hs', Hc, Hs, Nat.add_1_r. auto.
Qed.

Lemma four_states_on_the_boundaries ms st d :
  get_player_state ms = Some st ->
  tx_queue (client d) = Queue_new ->
  is_connected (client d) = true ->
  last_state_ms d = 0 ->
  stopped d = false ->
  states_enqueued
    (main_loop [quiet_pass ms 125; quiet_pass ms 250;
                quiet_pass ms 375; quiet_pass ms 500] d) = 4%nat.
Proof.
  intros Hst Hq Hc Hl Hs.
  assert (Hp : has_payload ms = true).
  { unfold has_payload, build_state_payload. rewrite Hst.
    now destruct (get_crosshair_block ms). }
  assert (Hn0 : states_enqueued d = 0%nat)
    by (unfold states_enqueued; now rewrite Hq).
  assert (Hm0 : maxsize (tx_queue (client d)) = 0%nat) by now rewrite Hq.
  unfold quiet_pass. cbn [main_loop].
  destruct (quiet_pass_emits ms 125 d Hp Hm0 Hc Hs)
    as (Hn1 & Hl1 & Hm1 & Hc1 & Hs1); [now rewrite Hl|].
  set (d1 := iteration ms 125 None d) in *. rewrite Hs1.
  destruct (quiet_pass_emits ms 250 d1 Hp Hm1 Hc1 Hs1)
    as (Hn2 & Hl2 & Hm2 & Hc2 & Hs2); [now rewrite Hl1|].
  set (d2 := iteration ms 250 None d1) in *. rewrite Hs2.
  destruct (quiet_pass_emits ms 375 d2 Hp Hm2 Hc2 Hs2)
    as (Hn3 & Hl3 & Hm3 & Hc3 & Hs3); [now rewrite Hl2|].
  set (d3 := iteration ms 375 None d2) in *. rewrite Hs3.
  destruct (quiet_pass_emits ms 500 d3 Hp Hm3 Hc3 Hs3)
    as (Hn4 & Hl4 & Hm4 & Hc4 & Hs4); [now rewrite Hl3|].
  set (d4 := iteration ms 500 None d3) in *. rewrite Hs4.
  now rewrite Hn4, Hn3, Hn2, Hn1, Hn0.
Qed.

(** C9, as the code has it.  In one pass of the driver a State message is
    enqueued exactly when the client is connected, the sampling interval
    has elapsed since the last timestamp, and the host has a player to
    report; the timestamp becomes the current time whenever the first two
    hold, with or without a player, and is otherwise unchanged.  For a
    driver that starts at time 0 with a connected client and a player,
    passes at 125, 250, 375 and 500 ms enqueue exactly 4 State messages,
    and no sequence of passes within the first 500 ms enqueues more. *)
Theorem state_cadence :
  (forall ms now_ms event d,
      maxsize (tx_queue (client d)) = 0%nat ->
      let d' := iteration ms now_ms event d in
      states_enqueued d'
      = (states_enqueued d
         + if state_due now_ms d && has_payload ms then 1 else 0)%nat
      /\ last_state_ms d'
         = if state_due now_ms d then now_ms else last_state_ms d)
  /\ (forall ms st d,
         get_player_state ms = Some st ->
         tx_queue (client d) = Queue_new ->
         is_connected (client d) = true ->
         last_state_ms d = 0 ->
         stopped d = false ->
         states_enqueued
           (main_loop [quiet_pass ms 125; quiet_pass ms 250;
                       quiet_pass ms 375; quiet_pass ms 500] d) = 4%nat)
  /\ (forall passes d,
         Forall (fun pass => snd (fst pass) <= 500) passes ->
         tx_queue (client d) = Queue_new ->
         last_state_ms d = 0 ->
         (states_enqueued (main_loop passes d) <= 4)%nat).
Proof.
  split; [|split].
  - intros ms now_ms event d Hmax.
    destruct (iteration_effect ms now_ms event d Hmax) as (Hn & Hl & _).
    now split.
  - apply four_states_on_the_boundaries.
  - apply at_most_four_states.
Qed.

Section DriverFacts.

Variable float_repr : Q -> string.
Variable py_str : json -> string.

(** C5. For a line that the parser recognises, the driver appends to the
    queue a Command dictionary with the type "command", the protocol
    version and the verb, and with [args] exactly when there are
    arguments, and it logs the verb and the arguments.  With a connected
    client, the line "/come 10 64 -5" puts the one frame
    {"type":"command","v":1,"name":"come","args":["10","64","-5"]} in the
    queue, which the sender loop then writes after the hello, and the
    line logged names come and 10 64 -5. *)
Theorem command_is_enqueued :
  (forall line cmd d,
      maxsize (tx_queue (client d)) = 0%nat ->
      parse_private_command (PyStr.strip line) = Some cmd ->
      let d' := handle_event (Some (OutgoingChatIntercept (Some line))) d in
      let payload := command_payload cmd in
      items (tx_queue (client d'))
      = (items (tx_queue (client d)) ++ [payload])%list
      /\ Dict.get payload "type" = Some (JStr "command")
      /\ Dict.get payload "v" = Some (JInt PROTOCOL_VERSION)
      /\ Dict.get payload "name" = Some (JStr (name cmd))
      /\ Dict.get payload "args"
         = match args cmd with
           | [] => None
           | _ :: _ => Some (JArr (map JStr (args cmd)))
           end
      /\ logged d' = (logged d ++ [command_log_line cmd])%list
      /\ chatted d' = chatted d)
  /\ (let frame :=
        PyStr.dq
          "{'type':'command','v':1,'name':'come','args':['10','64','-5']}" in
      let d := connected_driver float_repr py_str "ws://127.0.0.1:8080" "" in
      let d' := iteration DummyMS 125
                  (Some (OutgoingChatIntercept (Some "/come 10 64 -5"))) d in
      is_connected (client d) = true
      /\ map (dumps float_repr) (items (tx_queue (client d'))) = [frame]
      /\ logged d' = ["[PrivateBridge] come 10 64 -5"]
      /\ PyStr.contains "come" "[PrivateBridge] come 10 64 -5" = true
      /\ PyStr.contains "10 64 -5" "[PrivateBridge] come 10 64 -5" = true
      /\ option_map wire
           (_thread (fold_left (thread_step float_repr py_str)
                       [Tick Succeeds; Tick Succeeds; Tick Succeeds]
                       (client d')))
         = Some [[PyStr.dq "{'type':'hello','v':1}"; frame]]).
Proof.
  split.
  - intros line cmd d Hmax Hparse d' payload. subst d' payload.
    cbn [handle_event]. rewrite Hparse.
    destruct (driver_send_unbounded (command_payload cmd) d Hmax)
      as (Hi & _ & _ & _ & Hch & Hlg & _).
    destruct (command_payload_fields cmd) as (Ht & Hv & Hn & Ha).
    cbn [client logged chatted]. rewrite Hi, Hlg, Hch. auto 10.
  - cbv zeta. repeat split; reflexivity.
Qed.

End DriverFacts.

(* ------------------------------------------------------------------ *)
(** ** Instances *)

Lemma state_cadence_witness :
  states_enqueued
    (iteration DummyMS 125 None
       (connected_driver example_float_repr example_py_str "ws://h" ""))
  = 0%nat
  /\ last_state_ms
       (iteration DummyMS 125 None
          (connected_driver example_float_repr example_py_str "ws://h" ""))
     = 125.
Proof.
  apply (proj1 state_cadence DummyMS 125 None
           (connected_driver example_float_repr example_py_str "ws://h" "")).
  reflexivity.
Defined.

(** C9 as stated fails: the client is connected and the interval has
    elapsed, yet with no player to report nothing is enqueued, while the
    timestamp moves to the current time. *)
Lemma no_state_without_player :
  let d := connected_driver example_float_repr example_py_str "ws://h" "" in
  let d' := iteration DummyMS 125 None d in
  is_connected (client d) = true
  /\ Qle_bool STATE_INTERVAL_MS (125 - last_state_ms d) = true
  /\ build_state_payload DummyMS = None
  /\ items (tx_queue (client d')) = []
  /\ states_enqueued d' = 0%nat
  /\ last_state_ms d' = 125.
Proof. cbv zeta. repeat split; reflexivity. Qed.

Lemma backoff_sequence_witness :
  delays (history (snd (run example_float_repr example_py_str
                          (failed_attempts ["a"; "b"; "c"; "d"; "e"; "f"])
                          (WSClient_init "ws://h" "", Lifecycle_start))))
  = map nth_delay (seq 0 6).
Proof.
  apply (proj1 (proj2 (proj2 (backoff_sequence example_float_repr
                                example_py_str)))
           ["a"; "b"; "c"; "d"; "e"; "f"] (WSClient_init "ws://h" "")).
  reflexivity.
Defined.

Lemma hello_is_first_frame_witness :
  wire (snd (run example_float_repr example_py_str (ticks 6)
               (fst (send (WSClient_init "ws://h" "s3")
                       [("type", JStr "command")]), Lifecycle_start)))
  = [[dumps example_float_repr (hello_message "s3");
      dumps example_float_repr [("type", JStr "command")]]].
Proof.
  apply (proj2 (proj2 (hello_is_first_frame example_float_repr
                         example_py_str))
           "ws://h" "s3" [("type", JStr "command")]).
  reflexivity.
Defined.

Lemma stop_payload_ends_sender_loop_witness :
  let payload := [("_type", JStr "STOP"); ("note", JStr "from a caller")] in
  let l := goto Get Lifecycle_start in
  let c := WSClient_init "ws://h" "" in
  async_step example_float_repr Succeeds (fst (send c payload)) l
  = async_step example_float_repr Succeeds (fst (send c STOP_SENTINEL)) l
  /\ snd (async_step example_float_repr Succeeds (fst (send c payload)) l)
     = goto Close l.
Proof.
  apply (proj2 (stop_payload_ends_sender_loop example_float_repr
                  [("_type", JStr "STOP"); ("note", JStr "from a caller")]
                  eq_refl)
           Succeeds (WSClient_init "ws://h" "") (goto Get Lifecycle_start));
    reflexivity.
Defined.

Lemma lookingAt_round_trip_witness :
  let ms := {| player := Returns (Some {| entity_position := (1, 64, -3) |});
               player_orientation := Returns (90, 0);
               player_get_targeted_block :=
                 Returns (Some {| block_position := (0, 0, 0)%Z |}) |} in
  exists payload member,
    build_state_payload ms = Some payload
    /\ decode_lookingAt payload = Some (0, 0, 0)%Z
    /\ Dict.get payload "lookingAt" = Some member
    /\ loads_block (json_dumps example_float_repr member) = Some (0, 0, 0)%Z
    /\ json_dumps example_float_repr (JObj payload)
       = state_text example_float_repr
           {| st_x := 1; st_y := 64; st_z := -3; st_yaw := 90; st_pitch := 0 |}
           (Some {| bp_x := 0; bp_y := 0; bp_z := 0 |}).
Proof.
  cbv zeta.
  apply (proj1 (lookingAt_round_trip example_float_repr
                  {| player := Returns (Some {| entity_position := (1, 64, -3) |});
                     player_orientation := Returns (90, 0);
                     player_get_targeted_block :=
                       Returns (Some {| block_position := (0, 0, 0)%Z |}) |}
                  {| st_x := 1; st_y := 64; st_z := -3;
                     st_yaw := 90; st_pitch := 0 |}
                  eq_refl) 0%Z 0%Z 0%Z).
  reflexivity.
Defined.

Lemma command_is_enqueued_witness :
  let d := main_start true "ws://h" "" in
  let d' := handle_event (Some (OutgoingChatIntercept (Some " /Mine  stone 3 "))) d in
  let cmd := {| name := "mine"; args := ["stone"; "3"] |} in
  let payload := command_payload cmd in
  items (tx_queue (client d'))
  = (items (tx_queue (client d)) ++ [payload])%list
  /\ Dict.get payload "type" = Some (JStr "command")
  /\ Dict.get payload "v" = Some (JInt PROTOCOL_VERSION)
  /\ Dict.get payload "name" = Some (JStr (name cmd))
  /\ Dict.get payload "args" = Some (JArr (map JStr (args cmd)))
  /\ logged d' = (logged d ++ [command_log_line cmd])%list
  /\ chatted d' = chatted d.
Proof.
  apply (proj1 (command_is_enqueued example_float_repr example_py_str)
           " /Mine  stone 3 " {| name := "mine"; args := ["stone"; "3"] |}
           (main_start true "ws://h" "")); reflexivity.
Defined.

(* ================================================================== *)
(** * Further properties of the code *)

(* ------------------------------------------------------------------ *)
(** ** Command parser *)








Lemma parse_strip (msg : string) :
  parse_private_command (PyStr.strip msg) = parse_private_command msg.
Proof.
  unfold parse_private_command. rewrite PyStrFacts.strip_idempotent.
  destruct msg as [|c r]; [reflexivity|].
  destruct (PyStr.strip (String c r)) eqn:E; reflexivity.
Qed.

(** X1. The parser depends only on the trimmed line: trimming a line
    first, as the driver does, never changes how it is parsed. *)
Theorem parse_ignores_surrounding_whitespace (msg : string) :
  parse_private_command (PyStr.strip msg) = parse_private_command msg.
Proof. exact (parse_strip msg). Qed.









(* ------------------------------------------------------------------ *)
(** ** Host accessors *)

(** X4. A State payload is withheld exactly when the player accessor
    raises or reports no player, or the orientation accessor raises,
    whatever the target accessor does; and when a payload is built, its
    [lookingAt] member is left out exactly when the target accessor raises
    or reports no block. *)
Theorem state_payload_availability (ms : Minescript) :
  (build_state_payload ms = None
   <-> player ms = Throws \/ player ms = Returns None
       \/ player_orientation ms = Throws)
  /\ (forall payload,
         build_state_payload ms = Some payload ->
         (Dict.get payload "lookingAt" = None
          <-> player_get_targeted_block ms = Throws
              \/ player_get_targeted_block ms = Returns None)).
Proof.
  unfold build_state_payload, get_player_state, get_crosshair_block.
  destruct ms as [[[[[[px py] pz]]|]|] [[yaw pitch]|] [[[[[bx by_] bz]]|]|]];
    simpl;
    (split;
     [split; [try discriminate; auto
             | intros [H | [H | H]]; try discriminate H; auto]
     | intros payload Hp;
       first [discriminate Hp
             | injection Hp as <-; simpl;
               split; [try discriminate; auto
                      | intros [H | H]; try discriminate H; auto]]]).
Qed.

Lemma state_payload_availability_witness :
  Dict.get
    [("type", JStr "state"); ("v", JInt PROTOCOL_VERSION);
     ("position", JObj [("x", JFloat 1); ("y", JFloat 2); ("z", JFloat 3)]);
     ("rotation", JObj [("yaw", JFloat 0); ("pitch", JFloat 0)])]
    "lookingAt" = None
  <-> (@Throws (option TargetedBlock)) = Throws
      \/ (@Throws (option TargetedBlock)) = Returns None.
Proof.
  apply (proj2 (state_payload_availability
                  {| player := Returns (Some {| entity_position := (1, 2, 3) |});
                     player_orientation := Returns (0, 0);
                     player_get_targeted_block := Throws |})).
  reflexivity.
Defined.

(* ------------------------------------------------------------------ *)
(** ** Transport client *)

(** X6. [start] changes nothing when the websockets module is missing
    (it only echoes the hint) or when the thread it holds is alive; it is
    idempotent; and it spawns a fresh lifecycle thread, clearing the stop
    event, when the thread it holds has exited. *)
Theorem start_is_idempotent :
  (forall c,
      start false c
      = (c, ["[PrivateBridge] Missing dependency: pip install websockets"]))
  /\ (forall c t,
         _thread c = Some t -> is_alive t = true -> start true c = (c, []))
  /\ (forall c, fst (start true (fst (start true c))) = fst (start true c))
  /\ (forall c t,
         _thread c = Some t -> is_alive t = false ->
         fst (start true c)
         = with_thread (Some Lifecycle_start) (with_stop_evt false c)).
Proof.
  repeat split.
  - intros c t Ht Ha. unfold start. simpl. now rewrite Ht, Ha.
  - intros c. unfold start. simpl.
    destruct (_thread c) as [t|] eqn:Ht; [destruct (is_alive t) eqn:Ha|];
      simpl; rewrite ?Ht, ?Ha; reflexivity.
  - intros c t Ht Ha. unfold start. simpl. now rewrite Ht, Ha.
Qed.

Lemma start_is_idempotent_witness :
  start true (fst (start true (WSClient_init "ws://h" "")))
  = (fst (start true (WSClient_init "ws://h" "")), []).
Proof.
  apply (proj1 (proj2 start_is_idempotent)
           (fst (start true (WSClient_init "ws://h" ""))) Lifecycle_start);
    reflexivity.
Defined.

Section TransportMore.

Variable float_repr : Q -> string.
Variable py_str : json -> string.

Local Abbreviation Step' := (lifecycle_step float_repr py_str).
Local Abbreviation Run' := (run float_repr py_str).
Local Abbreviation Act' := (act float_repr py_str).

Lemma run_cons (a : action) (acts : list action) (s : WSClient * Lifecycle) :
  Run' (a :: acts) s = Run' acts (Act' a s).
Proof. reflexivity. Qed.

(** *** The queue stays unbounded *)

Lemma act_maxsize (a : action) (s : WSClient * Lifecycle) :
  maxsize (tx_queue (fst (Act' a s))) = maxsize (tx_queue (fst s)).
Proof.
  destruct s as [c l]. destruct a as [[o | decoded] | w]; simpl.
  - unfold async_step.
    destruct (at_pc l); try destruct o; try destruct (_stop_evt c);
      try reflexivity;
      (unfold get; destruct (items (tx_queue c)) as [|item rest];
       [reflexivity|]);
      now destruct (is_str (Dict.get item "_type") "STOP").
  - destruct (recv_task l); [|reflexivity].
    now destruct (recv_frame py_str decoded).
  - destruct w; simpl; try reflexivity.
    + unfold put_nowait. now destruct (_ && _)%bool.
    + unfold get. now destruct (items (tx_queue c)).
Qed.

Lemma run_maxsize (acts : list action) (s : WSClient * Lifecycle) :
  maxsize (tx_queue (fst (Run' acts s))) = maxsize (tx_queue (fst s)).
Proof.
  revert s. induction acts as [|a acts IH]; intros s; [reflexivity|].
  rewrite run_cons, IH. apply act_maxsize.
Qed.

(** X5. [send] never fails on the queue of a client: the queue is created
    unbounded and stays so through every step of the lifecycle thread and
    every write by other threads, so the payload always goes to the tail
    of the queue, nothing else changes, and nothing is logged. *)
Theorem send_always_enqueues
        (acts : list action) (c : WSClient) (l : Lifecycle) (payload : dict) :
  maxsize (tx_queue c) = 0%nat ->
  let c' := fst (Run' acts (c, l)) in
  send c' payload
  = (with_tx_queue {| maxsize := 0;
                      items := (items (tx_queue c') ++ [payload])%list |} c',
     []).
Proof.
  intros Hmax c'.
  assert (H : maxsize (tx_queue c') = 0%nat)
    by (unfold c'; now rewrite run_maxsize).
  unfold send, put_nowait. now rewrite H.
Qed.

(** *** Stopping *)

Lemma tick_towards_exit (o : io) (c : WSClient) (l : Lifecycle) :
  _stop_evt c = true ->
  let s := async_step float_repr o c l in
  _stop_evt (fst s) = true
  /\ (steps_to_exit (at_pc (snd s)) < steps_to_exit (at_pc l)
      \/ at_pc (snd s) = Exited)%nat.
Proof.
  intros Hstop. unfold async_step. rewrite Hstop.
  destruct (at_pc l) eqn:E; try destruct o;
    try (destruct (get (tx_queue c)) as [[item q]|];
         [destruct (is_str (Dict.get item "_type") "STOP")|]);
    simpl;
    (split; [assumption
            | (left; lia) || (right; reflexivity) || (right; assumption)]).
Qed.

Lemma stop_reaches_exit (acts : list action) :
  forall c l,
    _stop_evt c = true ->
    Forall keeps_stop acts ->
    (steps_to_exit (at_pc l) <= count_ticks acts)%nat ->
    at_pc (snd (Run' acts (c, l))) = Exited.
Proof.
  induction acts as [|a acts IH]; intros c l Hstop Hkeep Hn.
  - simpl in *. destruct (at_pc l); simpl in Hn; try lia. reflexivity.
  - inversion Hkeep as [|? ? Ha Hrest]; subst. rewrite run_cons.
    destruct a as [[o | decoded] | w].
    + simpl. destruct (tick_towards_exit o c l Hstop) as [Hs Hlt].
      destruct (async_step float_repr o c l) as [c1 l1]. simpl in *.
      apply IH; auto.
      destruct Hlt as [Hlt | ->]; simpl; lia.
    + simpl. destruct (recv_task l);
        [destruct (recv_frame py_str decoded)|]; simpl; apply IH; auto.
    + simpl. apply IH; auto.
      destruct w as [item | | [] | b | t]; simpl in *; auto; try contradiction.
      * now destruct (put_nowait (tx_queue c) item).
      * now destruct (get (tx_queue c)) as [[? ?]|].
Qed.

(** X7. Once the stop event is set and nobody clears it, the lifecycle
    thread is gone after at most five of its own steps, wherever it was
    and whatever the network, the inbound frames and the other threads
    do in between. *)
Theorem stop_ends_lifecycle
        (acts : list action) (c : WSClient) (l : Lifecycle) :
  _stop_evt c = true ->
  Forall keeps_stop acts ->
  (5 <= count_ticks acts)%nat ->
  at_pc (snd (Run' acts (c, l))) = Exited.
Proof.
  intros Hstop Hkeep Hn. apply stop_reaches_exit; auto.
  destruct (at_pc l); simpl; lia.
Qed.

(** *** The sender loop *)

Lemma ticks_add (a b : nat) : ticks (a + b) = (ticks a ++ ticks b)%list.
Proof. apply repeat_app. Qed.

Lemma sender_delivers_one (c : WSClient) (l : Lifecycle) (item : dict)
      (rest : list dict) (conn : list string) (older : list (list string)) :
  _stop_evt c = false -> at_pc l = SenderHead ->
  items (tx_queue c) = item :: rest -> nonstop item = true ->
  wire l = conn :: older ->
  exists c' l',
    Run' (ticks 3) (c, l) = (c', l')
    /\ _stop_evt c' = false /\ at_pc l' = SenderHead
    /\ items (tx_queue c') = rest
    /\ wire l' = (conn ++ [dumps float_repr item])%list :: older.
Proof.
  intros Hstop Hpc Hq Hns Hw.
  destruct c as [u s q t se cn], l as [p b r w h lg ec].
  destruct q as [m its]. simpl in *. subst se p its w.
  unfold nonstop in Hns. apply negb_true_iff in Hns.
  unfold ticks, run. cbn -[dumps Dict.get is_str]. rewrite Hns.
  eexists _, _. split; [reflexivity|]. simpl. auto.
Qed.

(** X8. The sender loop delivers in order: with the stop event clear and
    every write succeeding, the items of the queue, none of them a stop
    item, are written to the current connection one after the other in
    the order they were queued, three steps of the thread each, and the
    queue is empty afterwards. *)
Theorem sender_is_fifo (its : list dict) :
  forall (c : WSClient) (l : Lifecycle)
         (conn : list string) (older : list (list string)),
    _stop_evt c = false -> at_pc l = SenderHead ->
    items (tx_queue c) = its ->
    Forall (fun item => nonstop item = true) its ->
    wire l = conn :: older ->
    let s := Run' (ticks (3 * List.length its)) (c, l) in
    wire (snd s) = (conn ++ map (dumps float_repr) its)%list :: older
    /\ items (tx_queue (fst s)) = []
    /\ at_pc (snd s) = SenderHead.
Proof.
  induction its as [|item rest IH]; intros c l conn older Hstop Hpc Hq Hall Hw.
  - simpl. now rewrite app_nil_r, Hw, Hq, Hpc.
  - inversion Hall as [|? ? Hns Hrest]; subst.
    destruct (sender_delivers_one c l item rest conn older
                Hstop Hpc Hq Hns Hw)
      as (c' & l' & Hrun & Hstop' & Hpc' & Hq' & Hw').
    cbn [List.length]. rewrite Nat.mul_succ_r, Nat.add_comm, ticks_add.
    cbv zeta. rewrite run_app, Hrun.
    destruct (IH c' l' (conn ++ [dumps float_repr item])%list older
                Hstop' Hpc' Hq' Hrest Hw') as (H1 & H2 & H3).
    rewrite H1, H2, H3, <- app_assoc. auto.
Qed.

(** X9. A payload whose write fails is lost: it was taken off the queue
    before the write and is not put back, nothing is written, the failure
    is logged with its message and the sender loop is left. *)
Theorem failed_write_drops_item
        (o : io) (e : string) (c : WSClient) (l : Lifecycle)
        (item : dict) (rest : list dict) :
  at_pc l = Get -> items (tx_queue c) = item :: rest ->
  nonstop item = true ->
  let s := Run' [Thread (Tick o); Thread (Tick (Fails e))] (c, l) in
  items (tx_queue (fst s)) = rest
  /\ wire (snd s) = wire l
  /\ at_pc (snd s) = Close
  /\ lc_logged (snd s)
     = (lc_logged l ++ [("[PrivateBridge] send failed: " ++ e)%string])%list.
Proof.
  intros Hpc Hq Hns.
  destruct c as [u s q t se cn], l as [p b r w h lg ec].
  destruct q as [m its]. simpl in *. subst p its.
  unfold nonstop in Hns. apply negb_true_iff in Hns.
  unfold run. cbn -[dumps Dict.get is_str]. rewrite Hns. simpl. auto.
Qed.

(** *** Where frames come from *)

Lemma from_queue_mono (pool pool' : list dict) (frame : string) :
  incl pool pool' ->
  from_queue float_repr pool frame -> from_queue float_repr pool' frame.
Proof. intros Hi (item & Hin & Hns & Hf). exists item. auto. Qed.

Lemma payloads_inv_mono (pool pool' : list dict) (s : WSClient * Lifecycle) :
  incl pool pool' ->
  payloads_inv float_repr pool s -> payloads_inv float_repr pool' s.
Proof.
  intros Hi (Hq & Hw & Hpc). repeat split.
  - intros x Hx. auto.
  - eapply Forall_impl; [|exact Hw]. intros conn Hc.
    eapply Forall_impl; [|exact Hc]. intros f. now apply from_queue_mono.
  - destruct (at_pc (snd s)); auto. destruct Hpc. auto.
Qed.

Lemma tl_snoc (conn : list string) (f : string) :
  tl (conn ++ [f]) = match conn with
                     | [] => []
                     | _ :: _ => (tl conn ++ [f])%list
                     end.
Proof. now destruct conn. Qed.

Lemma payloads_inv_tick (pool : list dict) (o : io) (c : WSClient)
      (l : Lifecycle) :
  payloads_inv float_repr pool (c, l) ->
  payloads_inv float_repr pool (async_step float_repr o c l).
Proof.
  intros (Hq & Hw & Hpc).
  destruct c as [u s q t se cn], l as [p b r w h lg ec].
  destruct q as [m its]. unfold payloads_inv, async_step in *. simpl in *.
  destruct p; simpl in *.
  - (* LoopHead *) destruct se; simpl; auto.
  - (* Connect *)
    destruct o; simpl; [|auto].
    repeat split; auto. now exists w.
  - (* Hello *)
    destruct o; simpl; [|auto].
    destruct Hpc as [older ->]. inversion Hw; subst. simpl. auto.
  - (* SenderHead *) destruct se; simpl; auto.
  - (* Get *)
    unfold get. simpl. destruct its as [|item rest]; simpl; [auto|].
    assert (Hin : In item pool) by (apply Hq; now left).
    assert (Hrest : incl rest pool) by (intros x Hx; apply Hq; now right).
    destruct (is_str (Dict.get item "_type") "STOP") eqn:E; simpl; [auto|].
    repeat split; auto. unfold nonstop. now rewrite E.
  - (* Send *)
    destruct Hpc as [Hin Hns]. destruct o; simpl; [|auto].
    split; [assumption|]. split; [|exact I].
    destruct w as [|conn older]; simpl.
    + constructor; [constructor | constructor].
    + inversion Hw; subst. constructor; [|assumption].
      rewrite tl_snoc. destruct conn as [|f0 conn']; [constructor|].
      simpl in *. apply Forall_app. split; [assumption|].
      constructor; [|constructor]. now exists item.
  - (* Close *) auto.
  - (* Except *) destruct se; simpl; auto.
  - (* After *) destruct se; simpl; auto.
  - (* Sleep *) auto.
  - (* Exited *) auto.
Qed.

Lemma payloads_inv_act (pool : list dict) (a : action)
      (s : WSClient * Lifecycle) :
  payloads_inv float_repr pool s ->
  payloads_inv float_repr (pool ++ puts [a]) (Act' a s).
Proof.
  intros H. destruct s as [c l]. destruct a as [[o | decoded] | w]; simpl.
  - rewrite app_nil_r. now apply payloads_inv_tick.
  - rewrite app_nil_r. destruct H as (Hq & Hw & Hpc). simpl in *.
    destruct (recv_task l); [destruct (recv_frame py_str decoded)|];
      unfold payloads_inv; simpl; auto.
  - destruct H as (Hq & Hw & Hpc). simpl in *.
    assert (Hmono : payloads_inv float_repr
                      (pool ++ puts [Env w]) (c, l)).
    { apply payloads_inv_mono with pool; [apply incl_appl, incl_refl|].
      unfold payloads_inv. auto. }
    destruct w as [item | | b | b | t]; simpl in *;
      try (rewrite app_nil_r in *; exact Hmono).
    + unfold put_nowait. destruct (_ && _)%bool; [exact Hmono|].
      destruct Hmono as (Hq' & Hw' & Hpc'). unfold payloads_inv. simpl in *.
      repeat split; auto.
      apply incl_app; [assumption|].
      intros x [<- | []]. apply in_or_app. right. now left.
    + unfold get. rewrite app_nil_r in *.
      destruct (items (tx_queue c)) as [|i rest] eqn:E; [exact Hmono|].
      unfold payloads_inv. simpl. repeat split; auto.
      intros x Hx. apply Hq. now right.
Qed.

Lemma puts_app (a b : list action) : puts (a ++ b) = (puts a ++ puts b)%list.
Proof.
  induction a as [|[lb | [item | | s | s | t]] a IH]; simpl; auto.
  now rewrite IH.
Qed.

Lemma payloads_inv_run (acts : list action) (pool : list dict)
      (s : WSClient * Lifecycle) :
  payloads_inv float_repr pool s ->
  payloads_inv float_repr (pool ++ puts acts) (Run' acts s).
Proof.
  induction acts as [|a acts IH] using rev_ind; intros H.
  - simpl. now rewrite app_nil_r.
  - rewrite (run_snoc float_repr py_str), puts_app, app_assoc.
    now apply payloads_inv_act, IH.
Qed.

(** X10. Nothing is written that was not queued: in every execution,
    every frame on a connection after its first one encodes a payload
    that was in the queue at the start or was put there since, and that
    payload is never a stop item. *)
Theorem frames_come_from_the_queue
        (acts : list action) (c : WSClient)
        (conn : list string) (frame : string) :
  In conn (wire (snd (Run' acts (c, Lifecycle_start)))) ->
  In frame (tl conn) ->
  exists item,
    In item (items (tx_queue c) ++ puts acts)
    /\ is_str (Dict.get item "_type") "STOP" = false
    /\ frame = dumps float_repr item.
Proof.
  intros Hconn Hframe.
  assert (H0 : payloads_inv float_repr (items (tx_queue c))
                 (c, Lifecycle_start)).
  { unfold payloads_inv. simpl. repeat split; auto using incl_refl. }
  destruct (payloads_inv_run acts _ _ H0) as (_ & Hw & _).
  rewrite Forall_forall in Hw. specialize (Hw conn Hconn).
  rewrite Forall_forall in Hw.
  destruct (Hw frame Hframe) as (item & Hin & Hns & Hf).
  exists item. repeat split; auto.
  unfold nonstop in Hns. now apply negb_true_iff in Hns.
Qed.

(** *** Bounds of the backoff *)

Lemma nth_delay_bounds (k : nat) : 0.5 <= nth_delay k /\ nth_delay k <= 5.
Proof.
  unfold nth_delay. induction k as [|k [IHlo IHhi]]; simpl.
  - split; [apply Qle_refl | vm_compute; discriminate].
  - split.
    + apply Q.min_glb; [lra | vm_compute; discriminate].
    + apply Q.le_min_r.
Qed.

Lemma backoff_law_bounds (h : list event) :
  backoff_law h -> Forall (fun d => 0.5 <= d /\ d <= 5) (delays h).
Proof.
  induction h as [|[|d] h IH]; simpl; intros H; [constructor | auto |].
  destruct H as [-> H]. apply Forall_app. split; [auto|].
  constructor; [apply nth_delay_bounds | constructor].
Qed.

(** X11. In every execution, with any interleaving of failures, successes
    and writes by other threads, every delay the thread sleeps before a
    reconnect is at least 0.5 and at most 5 seconds. *)
Theorem backoff_is_bounded (acts : list action) (c : WSClient) :
  Forall (fun d => 0.5 <= d /\ d <= 5)
    (delays (history (snd (Run' acts (c, Lifecycle_start))))).
Proof.
  destruct (backoff_inv_run float_repr py_str acts c) as (_ & Hlaw & _).
  now apply backoff_law_bounds.
Qed.

(** *** The liveness flag *)

Lemma idle_inv_act (a : action) (s : WSClient * Lifecycle) :
  keeps_disconnected a -> idle_inv s -> idle_inv (Act' a s).
Proof.
  destruct s as [c l]. unfold idle_inv. simpl.
  destruct a as [[o | decoded] | w]; simpl; intros Hk H.
  - unfold async_step.
    destruct (at_pc l) eqn:E; simpl in H;
      try destruct o; try destruct (_stop_evt c);
      try (destruct (get (tx_queue c)) as [[item q]|];
           [destruct (is_str (Dict.get item "_type") "STOP")|]);
      simpl; auto; try discriminate;
      try (rewrite E; simpl; auto; discriminate).
  - destruct (recv_task l); [destruct (recv_frame py_str decoded)|];
      simpl; auto.
  - destruct w as [item | | b | [] | t]; simpl in *; auto; try contradiction.
    + destruct (put_nowait (tx_queue c) item); simpl; auto.
    + destruct (get (tx_queue c)) as [[? ?]|]; simpl; auto.
Qed.

Lemma streaming_inv_act (a : action) (s : WSClient * Lifecycle) :
  leaves_connected a -> streaming_inv s -> streaming_inv (Act' a s).
Proof.
  destruct s as [c l]. unfold streaming_inv. simpl.
  destruct a as [[o | decoded] | w]; simpl; intros Hk H.
  - unfold async_step.
    destruct (at_pc l) eqn:E; simpl in H;
      try destruct o; try destruct (_stop_evt c);
      try (destruct (get (tx_queue c)) as [[item q]|];
           [destruct (is_str (Dict.get item "_type") "STOP")|]);
      simpl; auto; try discriminate;
      try (rewrite E; simpl; auto; discriminate).
  - destruct (recv_task l); [destruct (recv_frame py_str decoded)|];
      simpl; auto.
  - destruct w as [item | | b | b | t]; simpl in *; auto; try contradiction.
    + destruct (put_nowait (tx_queue c) item); simpl; auto.
    + destruct (get (tx_queue c)) as [[? ?]|]; simpl; auto.
Qed.

Lemma run_invariant_when (ok : action -> Prop)
      (P : WSClient * Lifecycle -> Prop) :
  (forall a s, ok a -> P s -> P (Act' a s)) ->
  forall acts s, Forall ok acts -> P s -> P (Run' acts s).
Proof.
  intros Hact acts. induction acts as [|a acts IH]; intros s Hok HP.
  - exact HP.
  - inversion Hok; subst. rewrite run_cons. apply IH; auto.
Qed.

(** X12. The liveness flag follows the connection.  For a client that
    starts disconnected: as long as no other thread raises the flag,
    [is_connected] is false whenever the lifecycle thread is between
    connections (at the loop head, connecting, sleeping, or gone); and as
    long as no other thread writes the flag at all, it is true whenever
    the thread is inside a connection. *)
Theorem liveness_flag_follows_connection
        (acts : list action) (c : WSClient) :
  _connected c = false ->
  let s := Run' acts (c, Lifecycle_start) in
  (Forall keeps_disconnected acts ->
   between_connections (at_pc (snd s)) = true ->
   is_connected (fst s) = false)
  /\ (Forall leaves_connected acts ->
      in_connection (at_pc (snd s)) = true ->
      is_connected (fst s) = true).
Proof.
  intros Hc s. split; intros Hacts.
  - apply (run_invariant_when keeps_disconnected idle_inv idle_inv_act
             acts (c, Lifecycle_start) Hacts).
    intros _. exact Hc.
  - apply (run_invariant_when leaves_connected streaming_inv
             streaming_inv_act acts (c, Lifecycle_start) Hacts).
    intros H. discriminate H.
Qed.

(** *** A sentinel left behind *)

(** X13. A [stop] on a client that was never started leaves its sentinel
    in the queue, and the sentinel is still there after [start]: the new
    lifecycle thread connects, sends the hello, takes the sentinel for a
    stop request and closes that first connection without sending
    anything else; the stop event being clear, it goes on to sleep and
    reconnect. *)
Theorem stale_sentinel_ends_first_connection
        (url sec : string) (during_join : list label) :
  exists c1,
    stop float_repr py_str during_join (WSClient_init url sec) = Ok c1
    /\ items (tx_queue c1) = [STOP_SENTINEL]
    /\ let c2 := fst (start true c1) in
       let c3 := fold_left (thread_step float_repr py_str)
                   (repeat (Tick Succeeds) 7) c2 in
       is_connected c3 = false
       /\ items (tx_queue c3) = []
       /\ option_map at_pc (_thread c3) = Some Sleep
       /\ option_map wire (_thread c3)
          = Some [[dumps float_repr (hello_message sec)]].
Proof.
  eexists. split; [reflexivity|]. split; [reflexivity|].
  cbv zeta. cbn -[dumps hello_message]. auto.
Qed.

(** *** The receiver loop *)

Lemma recv_loop_app (a b : list (option json)) :
  Forall benign a ->
  _recv_loop py_str (a ++ b)
  = (_recv_loop py_str a ++ _recv_loop py_str b)%list.
Proof.
  induction 1 as [|f a Hf _ IH]; [reflexivity|].
  cbn [app _recv_loop].
  destruct f as [[]|]; try contradiction; simpl in *.
  - destruct (is_str (Dict.get fields "type") "ack");
      [|destruct (is_str (Dict.get fields "type") "error")];
      simpl; now rewrite IH.
  - exact IH.
Qed.

Lemma recv_loop_count (frames : list (option json)) :
  Forall benign frames ->
  List.length (_recv_loop py_str frames)
  = List.length (filter is_error_frame frames).
Proof.
  induction 1 as [|f a Hf _ IH]; [reflexivity|].
  destruct f as [[]|]; try contradiction; simpl in *; [|exact IH].
  destruct (Dict.get fields "type") as [[]|] eqn:E; simpl; auto.
  destruct (String.eqb s "ack") eqn:Ea; destruct (String.eqb s "error") eqn:Ee;
    simpl; auto.
  apply String.eqb_eq in Ea, Ee. subst. discriminate.
Qed.

(** X14. The receiver loop echoes one line for each error frame and
    nothing else, as long as every frame either fails to decode or
    decodes to an object; the first frame that decodes to anything else
    ends it, and no frame after that one is looked at. *)
Theorem recv_loop_echoes_errors (a b : list (option json)) (v : json) :
  Forall benign a ->
  ~ benign (Some v) ->
  List.length (_recv_loop py_str a) = List.length (filter is_error_frame a)
  /\ _recv_loop py_str (a ++ Some v :: b) = _recv_loop py_str a.
Proof.
  intros Ha Hv. split; [now apply recv_loop_count|].
  rewrite (recv_loop_app a (Some v :: b) Ha).
  destruct v; simpl in *; try (now rewrite app_nil_r). now destruct Hv.
Qed.

End TransportMore.

(* ------------------------------------------------------------------ *)
(** ** Session driver *)

(** X15. The fallback loop, taken when EventQueue is missing, pushes
    State messages exactly as a pass of the event loop in which no event
    arrived. *)
Theorem fallback_matches_quiet_pass
        (ms : Minescript) (now_ms : Q) (d : Driver) :
  fallback_iteration ms now_ms d = iteration ms now_ms None d.
Proof.
  unfold fallback_iteration, iteration, handle_event, push_state, state_due.
  now rewrite andb_comm.
Qed.

Lemma driver_send_stopped payload d :
  stopped (driver_send payload d) = stopped d.
Proof. unfold driver_send. now destruct (send (client d) payload). Qed.

Lemma push_state_stopped ms now_ms d :
  stopped (push_state ms now_ms d) = stopped d.
Proof.
  unfold push_state. destruct (state_due now_ms d); [|reflexivity].
  destruct (build_state_payload ms); [|reflexivity].
  now rewrite driver_send_stopped.
Qed.

Lemma handle_event_stopped event d :
  stopped d = false ->
  (stopped (handle_event event d) = true <-> event = Some (World false)).
Proof.
  intros Hs.
  destruct event as [[[] | message | type]|]; simpl;
    try (rewrite Hs; split; [discriminate | intros [=]]).
  - split; auto.
  - destruct (parse_private_command _); simpl;
      rewrite ?driver_send_stopped, Hs; (split; [discriminate | intros [=]]).
Qed.

(** X16. Only the event that the world disconnected ends the loop, and
    it ends it for good: the pass echoes that it stops, and no later pass
    is run, whatever events it would bring. *)
Theorem world_disconnect_is_terminal
        (ms : Minescript) (now_ms : Q) (d : Driver) :
  stopped d = false ->
  (forall event,
      stopped (iteration ms now_ms event d) = true
      <-> event = Some (World false))
  /\ (forall passes,
         main_loop ((ms, now_ms, Some (World false)) :: passes) d
         = iteration ms now_ms (Some (World false)) d)
  /\ echoed (iteration ms now_ms (Some (World false)) d)
     = (echoed (push_state ms now_ms d)
        ++ ["[PrivateBridge] world disconnected, stopping."])%list
  /\ chatted (iteration ms now_ms (Some (World false)) d) = chatted d.
Proof.
  intros Hs. repeat split.
  - unfold iteration. apply handle_event_stopped.
    now rewrite push_state_stopped.
  - intros ->. reflexivity.
  - simpl. apply push_state_chatted.
Qed.

Lemma world_disconnect_is_terminal_witness :
  main_loop
    [(DummyMS, 125, Some (World false));
     (DummyMS, 250, Some (OutgoingChatIntercept (Some "hello")))]
    (main_start true "ws://h" "")
  = iteration DummyMS 125 (Some (World false)) (main_start true "ws://h" "").
Proof.
  apply (proj1 (proj2 (world_disconnect_is_terminal DummyMS 125
                         (main_start true "ws://h" "") eq_refl))).
Defined.

Lemma appended_refl (c : WSClient) : appended c c [].
Proof. unfold appended, same_control. rewrite app_nil_r. auto 10. Qed.

Lemma appended_trans (c c1 c2 : WSClient) (a b : list dict) :
  appended c c1 a -> appended c1 c2 b -> appended c c2 (a ++ b).
Proof.
  intros (Hi & Hm & Hu & Hs & Ht & He & Hc) (Hi' & Hm' & Hu' & Hs' & Ht' & He' & Hc').
  unfold appended, same_control.
  rewrite Hi', Hi, Hm', Hm, Hu', Hu, Hs', Hs, Ht', Ht, He', He, Hc', Hc.
  rewrite app_assoc. auto 10.
Qed.

Lemma send_appended (c : WSClient) (payload : dict) :
  maxsize (tx_queue c) = 0%nat -> appended c (fst (send c payload)) [payload].
Proof.
  intros Hmax. unfold send, put_nowait. rewrite Hmax. simpl.
  unfold appended, same_control. simpl. auto 10.
Qed.

Lemma state_is_driver_payload (ms : Minescript) (payload : dict) :
  build_state_payload ms = Some payload -> driver_payload payload.
Proof.
  unfold build_state_payload.
  destruct (get_player_state ms); [|discriminate].
  destruct (get_crosshair_block ms); intros H; injection H as <-;
    (split; [now left | reflexivity]).
Qed.

Lemma command_is_driver_payload (cmd : Command) :
  driver_payload (command_payload cmd).
Proof.
  unfold command_payload.
  destruct (args cmd); (split; [now right | reflexivity]).
Qed.

Lemma driver_send_appended (payload : dict) (d : Driver) :
  maxsize (tx_queue (client d)) = 0%nat ->
  appended (client d) (client (driver_send payload d)) [payload].
Proof.
  intros Hmax. pose proof (send_appended (client d) payload Hmax) as H.
  unfold driver_send. now destruct (send (client d) payload).
Qed.

Lemma iteration_appended ms now_ms event d :
  maxsize (tx_queue (client d)) = 0%nat ->
  exists added,
    appended (client d) (client (iteration ms now_ms event d)) added
    /\ Forall driver_payload added.
Proof.
  intros Hmax.
  assert (H1 : exists a1,
             appended (client d) (client (push_state ms now_ms d)) a1
             /\ Forall driver_payload a1).
  { unfold push_state. destruct (state_due now_ms d);
      [|exists []; split; [apply appended_refl | constructor]].
    destruct (build_state_payload ms) as [st|] eqn:Hb;
      [|exists []; split; [apply appended_refl | constructor]].
    exists [st]. split.
    - apply (driver_send_appended st
               {| client := client d; last_state_ms := now_ms;
                  chatted := chatted d; logged := logged d;
                  echoed := echoed d; stopped := stopped d |} Hmax).
    - constructor; [|constructor]. now apply state_is_driver_payload with ms. }
  destruct H1 as (a1 & Ha1 & Hp1).
  set (d1 := push_state ms now_ms d) in *.
  assert (Hmax1 : maxsize (tx_queue (client d1)) = 0%nat).
  { destruct Ha1 as (_ & Hm & _). now rewrite Hm. }
  assert (H2 : exists a2,
             appended (client d1) (client (handle_event event d1)) a2
             /\ Forall driver_payload a2).
  { destruct event as [[connected | message | type]|]; simpl;
      try (exists []; split; [apply appended_refl | constructor]).
    - destruct connected; simpl;
        exists []; (split; [apply appended_refl | constructor]).
    - destruct (parse_private_command _) as [cmd|]; simpl;
        [|exists []; split; [apply appended_refl | constructor]].
      exists [command_payload cmd]. split.
      + now apply driver_send_appended.
      + constructor; [apply command_is_driver_payload | constructor]. }
  destruct H2 as (a2 & Ha2 & Hp2).
  exists (a1 ++ a2)%list. split.
  - unfold iteration. now apply appended_trans with (client d1).
  - now apply Forall_app.
Qed.

(** X17. The driver only ever appends to the queue.  Over any sequence
    of passes the client keeps its url, secret, thread, stop event and
    liveness flag, the items already queued stay in place, and what is
    added behind them are State and Command dictionaries only, none of
    which the sender loop can take for a stop request. *)
Theorem driver_only_appends
        (passes : list (Minescript * Q * option Event)) :
  forall d,
    maxsize (tx_queue (client d)) = 0%nat ->
    exists added,
      appended (client d) (client (main_loop passes d)) added
      /\ Forall driver_payload added.
Proof.
  induction passes as [|[[ms now_ms] event] passes IH]; intros d Hmax.
  - exists []. split; [apply appended_refl | constructor].
  - simpl.
    destruct (iteration_appended ms now_ms event d Hmax) as (a1 & Ha1 & Hp1).
    destruct (stopped (iteration ms now_ms event d)); [now exists a1|].
    assert (Hmax1 : maxsize (tx_queue (client (iteration ms now_ms event d)))
                    = 0%nat).
    { destruct Ha1 as (_ & Hm & _). now rewrite Hm. }
    destruct (IH _ Hmax1) as (a2 & Ha2 & Hp2).
    exists (a1 ++ a2)%list. split.
    + now apply appended_trans with (client (iteration ms now_ms event d)).
    + now apply Forall_app.
Qed.

Section DriverMore.

Variable float_repr : Q -> string.
Variable py_str : json -> string.


End DriverMore.

(** X19. Within one pass the State message goes first: when a State is
    due and the event of the pass is a recognised command, the queue
    receives the State dictionary and then the Command dictionary, behind
    what was already queued. *)
Theorem state_precedes_command
        (ms : Minescript) (now_ms : Q) (line : string) (cmd : Command)
        (st : dict) (d : Driver) :
  maxsize (tx_queue (client d)) = 0%nat ->
  state_due now_ms d = true ->
  build_state_payload ms = Some st ->
  parse_private_command (PyStr.strip line) = Some cmd ->
  items (tx_queue (client (iteration ms now_ms
                             (Some (OutgoingChatIntercept (Some line))) d)))
  = (items (tx_queue (client d)) ++ [st; command_payload cmd])%list.
Proof.
  intros Hmax Hdue Hb Hparse.
  unfold iteration, push_state. rewrite Hdue, Hb.
  set (d0 := {| client := client d; last_state_ms := now_ms;
                chatted := chatted d; logged := logged d;
                echoed := echoed d; stopped := stopped d |}).
  destruct (driver_send_unbounded st d0 Hmax) as (Hi1 & Hm1 & _).
  cbn [handle_event]. rewrite Hparse.
  destruct (driver_send_unbounded (command_payload cmd)
              (driver_send st d0) Hm1) as (Hi2 & _).
  cbn [client]. rewrite Hi2, Hi1. subst d0. cbn [client].
  now rewrite <- app_assoc.
Qed.

(** *** The lines the parser accepts *)




(* ------------------------------------------------------------------ *)
(** ** Instances of the further properties *)

Lemma send_always_enqueues_witness :
  send (fst (run example_float_repr example_py_str
               [Env (Put [("type", JStr "state")]); Thread (Tick Succeeds)]
               (WSClient_init "ws://h" "", Lifecycle_start)))
    [("type", JStr "command")]
  = (with_tx_queue
       {| maxsize := 0;
          items := [[("type", JStr "state")]; [("type", JStr "command")]] |}
       (fst (run example_float_repr example_py_str
               [Env (Put [("type", JStr "state")]); Thread (Tick Succeeds)]
               (WSClient_init "ws://h" "", Lifecycle_start))),
     []).
Proof.
  apply (send_always_enqueues example_float_repr example_py_str
           [Env (Put [("type", JStr "state")]); Thread (Tick Succeeds)]
           (WSClient_init "ws://h" "") Lifecycle_start
           [("type", JStr "command")]).
  reflexivity.
Defined.

Lemma stop_ends_lifecycle_witness :
  at_pc (snd (run example_float_repr example_py_str
                (Env (Put [("type", JStr "state")]) :: ticks 5)
                (with_stop_evt true (WSClient_init "ws://h" ""),
                 goto Get Lifecycle_start)))
  = Exited.
Proof.
  apply (stop_ends_lifecycle example_float_repr example_py_str
           (Env (Put [("type", JStr "state")]) :: ticks 5)
           (with_stop_evt true (WSClient_init "ws://h" ""))
           (goto Get Lifecycle_start)).
  - reflexivity.
  - repeat constructor.
  - simpl. lia.
Defined.

Lemma sender_is_fifo_witness :
  let c := with_tx_queue
             {| maxsize := 0;
                items := [[("type", JStr "command")];
                          [("type", JStr "state")]] |}
             (WSClient_init "ws://h" "") in
  let l := transmit "hello" (goto SenderHead Lifecycle_start) in
  let s := run example_float_repr example_py_str (ticks 6) (c, l) in
  wire (snd s)
  = (["hello"]
     ++ map (dumps example_float_repr)
          [[("type", JStr "command")]; [("type", JStr "state")]])%list :: []
  /\ items (tx_queue (fst s)) = []
  /\ at_pc (snd s) = SenderHead.
Proof.
  apply (sender_is_fifo example_float_repr example_py_str
           [[("type", JStr "command")]; [("type", JStr "state")]]
           (with_tx_queue
              {| maxsize := 0;
                 items := [[("type", JStr "command")];
                           [("type", JStr "state")]] |}
              (WSClient_init "ws://h" ""))
           (transmit "hello" (goto SenderHead Lifecycle_start))
           ["hello"] []);
    try reflexivity.
  repeat constructor.
Defined.

Lemma failed_write_drops_item_witness :
  let c := with_tx_queue
             {| maxsize := 0;
                items := [[("type", JStr "command")];
                          [("type", JStr "state")]] |}
             (WSClient_init "ws://h" "") in
  let l := goto Get Lifecycle_start in
  let s := run example_float_repr example_py_str
             [Thread (Tick Succeeds); Thread (Tick (Fails "closed"))] (c, l) in
  items (tx_queue (fst s)) = [[("type", JStr "state")]]
  /\ wire (snd s) = wire l
  /\ at_pc (snd s) = Close
  /\ lc_logged (snd s)
     = (lc_logged l ++ ["[PrivateBridge] send failed: closed"])%list.
Proof.
  apply (failed_write_drops_item example_float_repr example_py_str
           Succeeds "closed"
           (with_tx_queue
              {| maxsize := 0;
                 items := [[("type", JStr "command")];
                           [("type", JStr "state")]] |}
              (WSClient_init "ws://h" ""))
           (goto Get Lifecycle_start)
           [("type", JStr "command")] [[("type", JStr "state")]]);
    reflexivity.
Defined.

Lemma frames_come_from_the_queue_witness :
  exists item,
    In item (items (tx_queue (WSClient_init "ws://h" ""))
             ++ puts (Env (Put [("type", JStr "command")]) :: ticks 6))
    /\ is_str (Dict.get item "_type") "STOP" = false
    /\ dumps example_float_repr [("type", JStr "command")]
       = dumps example_float_repr item.
Proof.
  apply (frames_come_from_the_queue example_float_repr example_py_str
           (Env (Put [("type", JStr "command")]) :: ticks 6)
           (WSClient_init "ws://h" "")
           [dumps example_float_repr (hello_message "");
            dumps example_float_repr [("type", JStr "command")]]
           (dumps example_float_repr [("type", JStr "command")])).
  - left. reflexivity.
  - left. reflexivity.
Defined.

Lemma liveness_flag_follows_connection_witness :
  is_connected (fst (run example_float_repr example_py_str (ticks 3)
                       (WSClient_init "ws://h" "", Lifecycle_start)))
  = true.
Proof.
  apply (proj2 (liveness_flag_follows_connection example_float_repr
                  example_py_str (ticks 3) (WSClient_init "ws://h" "")
                  eq_refl)).
  - repeat constructor.
  - reflexivity.
Defined.

Lemma recv_loop_echoes_errors_witness :
  let error_frame :=
    Some (JObj [("type", JStr "error"); ("code", JInt 7)]) in
  List.length (_recv_loop example_py_str [None; error_frame])
  = List.length (filter is_error_frame [None; error_frame])
  /\ _recv_loop example_py_str
       ([None; error_frame] ++ Some (JInt 1) :: [error_frame])
     = _recv_loop example_py_str [None; error_frame].
Proof.
  apply (recv_loop_echoes_errors example_py_str
           [None; Some (JObj [("type", JStr "error"); ("code", JInt 7)])]
           [Some (JObj [("type", JStr "error"); ("code", JInt 7)])]
           (JInt 1)).
  - repeat constructor.
  - intros H. exact H.
Defined.

Lemma driver_only_appends_witness :
  exists added,
    appended (client (main_start true "ws://h" ""))
      (client (main_loop
                 [(DummyMS, 125, Some (OutgoingChatIntercept (Some "/come 1 2 3")));
                  (DummyMS, 250, Some (OutgoingChatIntercept (Some "hi")))]
                 (main_start true "ws://h" "")))
      added
    /\ Forall driver_payload added.
Proof.
  apply (driver_only_appends
           [(DummyMS, 125, Some (OutgoingChatIntercept (Some "/come 1 2 3")));
            (DummyMS, 250, Some (OutgoingChatIntercept (Some "hi")))]
           (main_start true "ws://h" "")).
  reflexivity.
Defined.


Lemma state_precedes_command_witness :
  let ms := {| player := Returns (Some {| entity_position := (1, 2, 3) |});
               player_orientation := Returns (0, 0);
               player_get_targeted_block := Returns None |} in
  let st := [("type", JStr "state"); ("v", JInt PROTOCOL_VERSION);
             ("position",
              JObj [("x", JFloat 1); ("y", JFloat 2); ("z", JFloat 3)]);
             ("rotation", JObj [("yaw", JFloat 0); ("pitch", JFloat 0)])] in
  let d := connected_driver example_float_repr example_py_str "ws://h" "" in
  items (tx_queue (client (iteration ms 125
                             (Some (OutgoingChatIntercept (Some "/hello"))) d)))
  = (items (tx_queue (client d))
     ++ [st; command_payload {| name := "hello"; args := [] |}])%list.
Proof.
  apply (state_precedes_command
           {| player := Returns (Some {| entity_position := (1, 2, 3) |});
              player_orientation := Returns (0, 0);
              player_get_targeted_block := Returns None |}
           125 "/hello" {| name := "hello"; args := [] |}
           [("type", JStr "state"); ("v", JInt PROTOCOL_VERSION);
            ("position",
             JObj [("x", JFloat 1); ("y", JFloat 2); ("z", JFloat 3)]);
            ("rotation", JObj [("yaw", JFloat 0); ("pitch", JFloat 0)])]
           (connected_driver example_float_repr example_py_str "ws://h" ""));
    reflexivity.
Defined.
